(** * ccxt-ohlcv-loader: a shallow embedding of the backfill engine

    The development follows the TypeScript sources module by module:

    - [Js]: the fragment of JavaScript arithmetic, arrays and errors the
      loader relies on ([Math.ceil] of a quotient, [Array.prototype.slice],
      [String.prototype.includes], [Error.prototype.toString]);
    - [FetchOhlcv]: [loading/fetch-ohlcv.ts] (probe, range planner, paged
      fetcher, merge / dedup / gap check);
    - [Parsing]: [parsing/ohlcv.ts];
    - [Db]: [persistence/db.ts] on a model of the PostgreSQL tables;
    - [Loader]: [loading/fetch-exchange-ohlcv.ts];
    - [CronSync]: [server/cron-sync.ts];
    - [Samples]: the concrete exchanges, tables and worlds the examples run on.

    Conventions.  Epoch-millisecond timestamps are integers inside the
    safe-integer range of a double, where [+], [-], [*] and the rounding of
    a quotient by [Math.ceil] / [Math.floor] are exact; they are modelled in
    [Z].  The values a JavaScript computation can leave the integers at
    (a division by zero) are kept as [Infinity], [-Infinity] and [NaN].
    Effects (exchange calls, clock reads, sleeps, console output, SQL
    statements) are threaded through an explicit world state; the answers
    of the external collaborators are oracles stored in that state. *)

From Stdlib Require Import ZArith List Lia QArith Qround.
From stdpp Require Import gmap strings list pretty sorting.

Local Open Scope Z_scope.

(* ===================================================================== *)
(** * JavaScript values                                                   *)
(* ===================================================================== *)

Module Js.

(** An integer-valued double, or one of the three non-finite values. *)
Inductive JsNum : Type :=
| Int (z : Z)
| PosInf
| NegInf
| NaN.

(** [Math.ceil(a / b)] for integers [a], [b] ([b = 0] is [+0]). *)
Definition ceil_div (a b : Z) : JsNum :=
  if b =? 0 then
    (if 0 <? a then PosInf else if a <? 0 then NegInf else NaN)
  else Int (- ((- a) / b)).

(** [Math.floor(a / b)] for integers [a], [b]. *)
Definition floor_div (a b : Z) : JsNum :=
  if b =? 0 then
    (if 0 <? a then PosInf else if a <? 0 then NegInf else NaN)
  else Int (a / b).

(** [Math.ceil(a / b)] where [a] is already a [JsNum]. *)
Definition ceil_div_num (a : JsNum) (b : Z) : JsNum :=
  match a with
  | Int z => ceil_div z b
  | PosInf => if b <? 0 then NegInf else PosInf
  | NegInf => if b <? 0 then PosInf else NegInf
  | NaN => NaN
  end.

(** [a + b] and [a - 1] on [JsNum]. *)
Definition add (a b : JsNum) : JsNum :=
  match a, b with
  | Int x, Int y => Int (x + y)
  | NaN, _ | _, NaN => NaN
  | PosInf, NegInf | NegInf, PosInf => NaN
  | PosInf, _ | _, PosInf => PosInf
  | NegInf, _ | _, NegInf => NegInf
  end.

Definition pred (a : JsNum) : JsNum := add a (Int (-1)).

(** [a > 0]. *)
Definition gt0 (a : JsNum) : bool :=
  match a with
  | Int z => 0 <? z
  | PosInf => true
  | NegInf | NaN => false
  end.

(** [arr.slice(start, end)] for integers: a negative index counts from the
    back, and both bounds are clamped to the array. *)
Definition slice {A} (arr : list A) (start end_ : Z) : list A :=
  let len := Z.of_nat (length arr) in
  let k := if start <? 0 then Z.max (len + start) 0 else Z.min start len in
  let final := if end_ <? 0 then Z.max (len + end_) 0 else Z.min end_ len in
  take (Z.to_nat (final - k)) (drop (Z.to_nat k) arr).

(** [arr.slice(0, end)] for any [end]: [NaN] and [-Infinity] are [0]. *)
Definition slice0 {A} (arr : list A) (end_ : JsNum) : list A :=
  match end_ with
  | Int n => slice arr 0 n
  | PosInf => arr
  | NegInf | NaN => []
  end.

(** [s.includes(sub)]. *)
Fixpoint includes (s sub : string) : bool :=
  String.prefix sub s
  || match s with
     | EmptyString => false
     | String _ s' => includes s' sub
     end.

(** A thrown [Error] (or subclass) object. *)
Record JsError : Type := mkError {
  err_name : string;
  err_message : string
}.

(** [new Error(msg)]. *)
Definition Error (msg : string) : JsError := mkError "Error" msg.

(** [Error.prototype.toString]. *)
Definition toString (e : JsError) : string :=
  if String.eqb (err_name e) "" then err_message e
  else if String.eqb (err_message e) "" then err_name e
  else (err_name e ++ ": " ++ err_message e)%string.

(** A double that the loader never computes with: it is only rendered by
    [Number.prototype.toString], so it is represented by that rendering. *)
Record JsNumber : Type := mkNumber { num_toString : string }.

End Js.

Export Js.

(* ===================================================================== *)
(** * Data exchanged between the modules                                  *)
(* ===================================================================== *)

(** [RawOHLCVData = [timestamp, open, high, low, close, volume]]. *)
Record RawOHLCVData : Type := mkRaw {
  timestamp : Z;
  raw_open : JsNumber;
  raw_high : JsNumber;
  raw_low : JsNumber;
  raw_close : JsNumber;
  raw_volume : JsNumber
}.

Record FetchRequest : Type := mkRequest {
  market : string;
  timeframe : string;
  since : Z;
  limit : Z
}.

(** [OHLCVDataItem] of [persistence/db.ts]. *)
Record OHLCVDataItem : Type := mkItem {
  symbol : string;
  open_time : Z;
  open : string;
  high : string;
  low : string;
  close : string;
  volume : string;
  close_time : Z
}.

(** The fields of a [ccxt.Market] the loader looks at ([None] is
    [undefined]). *)
Record Market : Type := mkMarket {
  m_symbol : option string;
  m_type : option string;
  m_settle : option string;
  m_quote : option string;
  m_future : option bool;
  m_swap : option bool;
  m_contract : option bool;
  m_active : option bool
}.

(** An exchange client.  [loadMarkets] and [fetchOHLCV] are the answers of
    the remote side; the answer to a fetch may depend on how many fetches
    were made before it. *)
Record Exchange : Type := mkExchange {
  ex_id : string;
  has_fetchOHLCV : bool;
  timeframes : list string;
  loadMarkets : JsError + option (list (string * Market));
  fetchOHLCV : nat -> FetchRequest -> JsError + list RawOHLCVData;
  has_close : bool
}.

(** The parsed environment ([env.ts]) and the defaults of [utils/retry]. *)
Record Env : Type := mkEnv {
  EXCHANGE_NAMES : list string;
  MARKET_TYPES : list string;
  PERSISTENCE_BATCH_SIZE : Z;
  HISTORICAL_DATA_TO_KEEP_MS : Z;
  RETRY_DEFAULT_ATTEMPTS : Z;
  RETRY_DEFAULT_DELAY_MS : Z
}.

(** A stored row without its primary key [(symbol, open_time)]. *)
Record Stored : Type := mkStored {
  s_open : string;
  s_high : string;
  s_low : string;
  s_close : string;
  s_volume : string;
  s_close_time : Z;
  s_created_at : Z
}.

(** Console output, one constructor per call site. *)
Inductive Msg : Type :=
| FetchingInitial (market timeframe : string)
| Downloading (market timeframe : string) (first : Z) (toDate : option Z)
| TotalRequests (numRequests : JsNum)
| FetchingChunk (k : Z) (numRequests : JsNum)
| RateLimitReached
| Aggregating (n : nat)
| MissingCandles (missingCandles : JsNum)
| SuccessfullyFetched (n : nat)
| ErrorFetching (error : JsError)
| NoFetchOHLCV (exchangeName : string)
| NoOneMinute (id : string)
| UnableToLoadMarkets
| MarketTypeNotSpecified (symbol : option string)
| NoTypeFound (symbol : string)
| Scraped (i : nat) (total : nat) (exchangeName symbol : string) (n : nat)
| Caught (error : JsError)
| Persisted (n : nat) (tableName : string)
| ErrorPersisting (tableName : string) (error : JsError)
| TableMightNotExist (tableName : string)
| NoDataProvided
| BatchPersisted (exchangeName marketType : string) (i : Z)
| BatchFailed (exchangeName marketType : string) (maxRetries : Z) (i : Z)
    (error : JsError).

Inductive Level : Type := LLog | LWarn | LError.

Inductive Sql : Type :=
| CreateTableIfNotExists (tableName : string)
| InsertOnConflictUpdate (tableName : string) (rows : list OHLCVDataItem)
| SelectLatestTimes (tableName : string) (symbols : list string).

Inductive Event : Type :=
| EvFetch (exchange : string) (request : FetchRequest)
| EvSleep (ms : Z)
| EvConsole (level : Level) (msg : Msg)
| EvQuery (sql : Sql)
| EvClose (exchange : string).

(* ===================================================================== *)
(** * The world and the effect monad                                      *)
(* ===================================================================== *)

Record World : Type := mkWorld {
  env : Env;
  (** [ccxt.exchanges] and [ccxt[name]]. *)
  ccxt_exchanges : list string;
  ccxt_class : string -> option Exchange;
  (** Successive readings of [Date.now()]. *)
  clock : nat -> Z;
  (** Whether the n-th [pool.query] fails for a reason of its own
      (connection, timeout, ...). *)
  pool_fault : nat -> option JsError;
  (** The database clock when the n-th statement runs. *)
  db_clock : nat -> Z;
  ticks : nat;
  fetches : nat;
  queries : nat;
  (** Tables by name, rows by primary key. *)
  db : gmap string (gmap (string * Z) Stored);
  (** What happened so far, oldest first. *)
  trace : list Event
}.

Definition set_ticks (n : nat) (w : World) : World :=
  mkWorld (env w) (ccxt_exchanges w) (ccxt_class w) (clock w) (pool_fault w)
    (db_clock w) n (fetches w) (queries w) (db w) (trace w).
Definition set_fetches (n : nat) (w : World) : World :=
  mkWorld (env w) (ccxt_exchanges w) (ccxt_class w) (clock w) (pool_fault w)
    (db_clock w) (ticks w) n (queries w) (db w) (trace w).
Definition set_queries (n : nat) (w : World) : World :=
  mkWorld (env w) (ccxt_exchanges w) (ccxt_class w) (clock w) (pool_fault w)
    (db_clock w) (ticks w) (fetches w) n (db w) (trace w).
Definition set_db (d : gmap string (gmap (string * Z) Stored)) (w : World)
  : World :=
  mkWorld (env w) (ccxt_exchanges w) (ccxt_class w) (clock w) (pool_fault w)
    (db_clock w) (ticks w) (fetches w) (queries w) d (trace w).
Definition set_trace (t : list Event) (w : World) : World :=
  mkWorld (env w) (ccxt_exchanges w) (ccxt_class w) (clock w) (pool_fault w)
    (db_clock w) (ticks w) (fetches w) (queries w) (db w) t.

(** How a computation ends: normally, by a thrown error, or not at all. *)
Inductive Outcome (A : Type) : Type :=
| Ret (a : A)
| Throw (e : JsError)
| Diverge.
Arguments Ret {A} a.
Arguments Throw {A} e.
Arguments Diverge {A}.

Definition M (A : Type) : Type := World -> Outcome A * World.

Definition ret {A} (a : A) : M A := fun w => (Ret a, w).

Definition bind {A B} (m : M A) (k : A -> M B) : M B :=
  fun w =>
    match m w with
    | (Ret a, w') => k a w'
    | (Throw e, w') => (Throw e, w')
    | (Diverge, w') => (Diverge, w')
    end.

Definition throw {A} (e : JsError) : M A := fun w => (Throw e, w).

Definition diverge {A} : M A := fun w => (Diverge, w).

(** [try { body } catch (e) { handler e }]. *)
Definition try_catch {A} (body : M A) (handler : JsError -> M A) : M A :=
  fun w =>
    match body w with
    | (Throw e, w') => handler e w'
    | r => r
    end.

(** [try { body } finally { final }]. *)
Definition try_finally {A} (body : M A) (final : M unit) : M A :=
  fun w =>
    match body w with
    | (Diverge, w') => (Diverge, w')
    | (r, w') =>
        match final w' with
        | (Ret _, w'') => (r, w'')
        | (Throw e, w'') => (Throw e, w'')
        | (Diverge, w'') => (Diverge, w'')
        end
    end.

#[export] Instance M_ret : MRet M := @ret.
#[export] Instance M_bind : MBind M := fun A B k m => bind m k.

Definition emit (e : Event) : M unit :=
  fun w => (Ret tt, set_trace (trace w ++ [e]) w).

Definition console (l : Level) (m : Msg) : M unit := emit (EvConsole l m).

(** [await sleep(ms)]. *)
Definition sleep (ms : Z) : M unit := emit (EvSleep ms).

(** [Date.now()]. *)
Definition date_now : M Z :=
  fun w => (Ret (clock w (ticks w)), set_ticks (S (ticks w)) w).

Definition get_env : M Env := fun w => (Ret (env w), w).

(** [await exchange.fetchOHLCV(market, timeframe, since, limit)]. *)
Definition exchange_fetchOHLCV (exchange : Exchange) (request : FetchRequest)
  : M (list RawOHLCVData) :=
  fun w =>
    let w' := set_fetches (S (fetches w))
                (set_trace (trace w ++ [EvFetch (ex_id exchange) request]) w) in
    match fetchOHLCV exchange (fetches w) request with
    | inl e => (Throw e, w')
    | inr data => (Ret data, w')
    end.

(** [for (const x of xs) { body x }], threading the loop-carried state. *)
Fixpoint for_of {A S} (xs : list A) (body : A -> S -> M S) (s : S) : M S :=
  match xs with
  | [] => ret s
  | x :: rest => s' ← body x s; for_of rest body s'
  end.

(* ===================================================================== *)
(** * loading/fetch-ohlcv.ts                                              *)
(* ===================================================================== *)

Module FetchOhlcv.

(** Maximum limit for the initial fetch. *)
Definition LIMIT : Z := 1000000.

Definition maxRetries : Z := 3.

(** [totalLimit = Math.ceil((end - initialData[0][0]) / timeframeInterval)],
    where [end] is [Date.now()] or the timestamp of [toDate]. *)
Definition calc_totalLimit (endTimestamp first timeframeInterval : Z) : JsNum :=
  ceil_div (endTimestamp - first) timeframeInterval.

(** [numRequests = Math.ceil(totalLimit / maxLimit)]. *)
Definition calc_numRequests (totalLimit : JsNum) (maxLimit : Z) : JsNum :=
  ceil_div_num totalLimit maxLimit.

(** The loop [for (let i = 0; i < numRequests; i++) requests.push(...)].
    With [numRequests = Infinity] it never ends ([None]). *)
Definition prepare_requests (market timeframe : string)
    (since maxLimit timeframeInterval : Z) (numRequests : JsNum)
  : option (list FetchRequest) :=
  match numRequests with
  | Int n =>
      Some ((fun i => mkRequest market timeframe
                        (since + i * maxLimit * timeframeInterval) LIMIT)
              <$> seqZ 0 n)
  | PosInf => None
  | NegInf | NaN => Some []
  end.

(** [error.toString().includes('rate limit') ||
     error.toString().includes('429')]. *)
Definition is_rate_limit (error : JsError) : bool :=
  includes (toString error) "rate limit" || includes (toString error) "429".

(** The loop [while (retryCount < maxRetries)] for one request.  [retryCount]
    grows by one in every iteration that does not [break], so [fuel] counts
    [maxRetries - retryCount]; the loop is left with [fuel = 0] exactly when
    [retryCount >= maxRetries].  Returns [retryCount], [allData] and
    [processed] as they are after the loop. *)
Fixpoint fetch_while (exchange : Exchange) (request : FetchRequest)
    (numRequests : JsNum) (fuel : nat) (retryCount : Z)
    (allData : list RawOHLCVData) (processed : Z)
  : M (Z * list RawOHLCVData * Z) :=
  match fuel with
  | O => mret (retryCount, allData, processed)
  | S fuel' =>
      r ← try_catch
            (console LLog (FetchingChunk (processed + 1) numRequests);;
             chunkData ← exchange_fetchOHLCV exchange request;
             mret (inl (allData ++ chunkData, processed + 1)))
            (fun error =>
               if is_rate_limit error then
                 console LLog RateLimitReached;;
                 sleep 60000;;
                 mret (inr (retryCount + 1))
               else throw error);
      match r with
      | inl (allData', processed') => mret (retryCount, allData', processed')
      | inr retryCount' =>
          fetch_while exchange request numRequests fuel' retryCount'
            allData processed
      end
  end.

(** The body of [for (const request of requests)]. *)
Definition fetch_request (exchange : Exchange) (numRequests : JsNum)
    (request : FetchRequest) (st : list RawOHLCVData * Z)
  : M (list RawOHLCVData * Z) :=
  '(retryCount, allData, processed) ←
    fetch_while exchange request numRequests (Z.to_nat (maxRetries - 0)) 0
      st.1 st.2;
  (if maxRetries <=? retryCount then
     throw (Error "Failed to fetch data after 3 retries due to rate limiting")
   else mret tt);;
  sleep 100;;
  mret (allData, processed).

(** Remove duplicates based on timestamp, keeping the first one seen. *)
Fixpoint remove_duplicates (allData : list RawOHLCVData)
    (seenTimestamps : gset Z) : list RawOHLCVData :=
  match allData with
  | [] => []
  | candle :: rest =>
      if decide (timestamp candle ∈ seenTimestamps) then
        remove_duplicates rest seenTimestamps
      else
        candle :: remove_duplicates rest ({[timestamp candle]} ∪ seenTimestamps)
  end.

(** [uniqueData.sort((a, b) => a[0] - b[0])]: a stable sort by timestamp. *)
Fixpoint sort_insert (c : RawOHLCVData) (sorted : list RawOHLCVData)
  : list RawOHLCVData :=
  match sorted with
  | [] => [c]
  | x :: rest =>
      if timestamp c <=? timestamp x then c :: x :: rest
      else x :: sort_insert c rest
  end.

Definition sort_by_timestamp (data : list RawOHLCVData) : list RawOHLCVData :=
  foldr sort_insert [] data.

(** Dedup, sort, and trim to the requested limit. *)
Definition aggregate (allData : list RawOHLCVData) (totalLimit : JsNum)
  : list RawOHLCVData :=
  let uniqueData := remove_duplicates allData ∅ in
  let sorted := sort_by_timestamp uniqueData in
  slice0 sorted totalLimit.

(** The data integrity check: the loop over [i = 1 .. length - 1], with
    [finalData[i - 1]] and [finalData[i]] the first two entries of the
    remaining list. *)
Fixpoint count_missing (expectedInterval : Z) (finalData : list RawOHLCVData)
    (missingCandles : JsNum) : JsNum :=
  match finalData with
  | prev :: (cur :: _) as rest =>
      let actualInterval := timestamp cur - timestamp prev in
      count_missing expectedInterval rest
        (if actualInterval =? expectedInterval then missingCandles
         else
           let missing := pred (floor_div actualInterval expectedInterval) in
           add missingCandles missing)
  | _ => missingCandles
  end.

(** What the planning part of [fetchOHLCVData] hands to the rest. *)
Record Plan : Type := mkPlan {
  timeframeInterval : Z;
  totalLimit : JsNum;
  numRequests : JsNum;
  requests : list FetchRequest
}.

(** [fetchOHLCVData], from "Pre-download" to "Prepare requests": the probe
    fetch, the two checks on its length, the interval, the limits and the
    request list. *)
Definition plan_requests (exchange : Exchange) (market timeframe : string)
    (since : Z) (toDate : option Z) : M Plan :=
  console LLog (FetchingInitial market timeframe);;
  initialData ← exchange_fetchOHLCV exchange
                  (mkRequest market timeframe since LIMIT);
  match initialData with
  | [] =>
      throw (Error "No data available for the requested market and timeframe")
  | [_] =>
      throw (Error "Not enough data available for the requested market and timeframe")
  | first :: second :: _ =>
      let maxLimit := Z.of_nat (length initialData) in
      let timeframeInterval := timestamp second - timestamp first in
      totalLimit ←
        match toDate with
        | None =>
            now ← date_now;
            mret (calc_totalLimit now (timestamp first) timeframeInterval)
        | Some endTimestamp =>
            mret (calc_totalLimit endTimestamp (timestamp first)
                    timeframeInterval)
        end;
      let numRequests := calc_numRequests totalLimit maxLimit in
      console LLog (Downloading market timeframe (timestamp first) toDate);;
      console LLog (TotalRequests numRequests);;
      match prepare_requests market timeframe since maxLimit
              timeframeInterval numRequests with
      | None => diverge
      | Some requests =>
          mret (mkPlan timeframeInterval totalLimit numRequests requests)
      end
  end.

(** [fetchOHLCVData], "Fetch data sequentially". *)
Definition fetch_sequentially (exchange : Exchange) (numRequests : JsNum)
    (requests : list FetchRequest) : M (list RawOHLCVData) :=
  '(allData, _) ←
    for_of requests (fetch_request exchange numRequests) ([], 0);
  mret allData.

(** [fetchOHLCVData], from "Aggregate and clean data" to the [return]. *)
Definition aggregate_and_check (timeframeInterval : Z) (totalLimit : JsNum)
    (allData : list RawOHLCVData) : M (list RawOHLCVData) :=
  console LLog (Aggregating (length allData));;
  let finalData := aggregate allData totalLimit in
  let missingCandles := count_missing timeframeInterval finalData (Int 0) in
  (if gt0 missingCandles then console LWarn (MissingCandles missingCandles)
   else mret tt);;
  console LLog (SuccessfullyFetched (length finalData));;
  mret finalData.

(** [fetchOHLCVData(exchange, market, timeframe, fromDate, toDate = null)].
    The two dates are given by the timestamps [dateToTimestamp] reads from
    them. *)
Definition fetchOHLCVData (exchange : Exchange) (market timeframe : string)
    (fromDate : Z) (toDate : option Z) : M (list RawOHLCVData) :=
  try_catch
    (let since := fromDate in
     plan ← plan_requests exchange market timeframe since toDate;
     allData ← fetch_sequentially exchange (numRequests plan) (requests plan);
     aggregate_and_check (timeframeInterval plan) (totalLimit plan) allData)
    (fun error => console LError (ErrorFetching error);; throw error).

End FetchOhlcv.

(* ===================================================================== *)
(** * parsing/ohlcv.ts                                                    *)
(* ===================================================================== *)

Module Parsing.

(** The callback of [ohlcvData.map] in [parseOHLCVData]. *)
Definition parse_candle (symbol : string) (candle : RawOHLCVData)
  : OHLCVDataItem :=
  {| symbol := symbol;
     open_time := timestamp candle;
     open := num_toString (raw_open candle);
     high := num_toString (raw_high candle);
     low := num_toString (raw_low candle);
     close := num_toString (raw_close candle);
     volume := num_toString (raw_volume candle);
     close_time := timestamp candle + 60000 |}.

(** Only include candles that have already closed. *)
Definition filterCompleteCandles (data : list OHLCVDataItem)
  : M (list OHLCVDataItem) :=
  now ← date_now;
  mret (List.filter (fun item => close_time item <=? now) data).

(** [parseOHLCVData(ohlcvData, symbol, excludeIncomplete = true)]. *)
Definition parseOHLCVData (ohlcvData : list RawOHLCVData) (symbol : string)
    (excludeIncomplete : option bool) : M (list OHLCVDataItem) :=
  let excludeIncomplete := default true excludeIncomplete in
  let parsedData := List.map (parse_candle symbol) ohlcvData in
  if excludeIncomplete then filterCompleteCandles parsedData
  else mret parsedData.

(** The key [`${item.symbol}-${item.close_time}`]. *)
Definition dedup_key (item : OHLCVDataItem) : string :=
  (symbol item ++ "-" ++ pretty (close_time item))%string.

Fixpoint dedup_filter (data : list OHLCVDataItem) (seen : gset string)
  : list OHLCVDataItem :=
  match data with
  | [] => []
  | item :: rest =>
      let key := dedup_key item in
      if decide (key ∈ seen) then dedup_filter rest seen
      else item :: dedup_filter rest ({[key]} ∪ seen)
  end.

Definition deduplicateOHLCVData (data : list OHLCVDataItem)
  : list OHLCVDataItem :=
  dedup_filter data ∅.

End Parsing.

(* ===================================================================== *)
(** * persistence/db.ts                                                   *)
(* ===================================================================== *)

Module Db.

Import Parsing.

Definition dquote : string := String (Ascii.ascii_of_nat 34) EmptyString.

(** PostgreSQL's answer to a statement on a table that is not there. *)
Definition undefined_table (tableName : string) : JsError :=
  mkError "error"
    ("relation " ++ dquote ++ tableName ++ dquote ++ " does not exist").

(** PostgreSQL's answer to an [INSERT ... ON CONFLICT DO UPDATE] that
    proposes the same key twice. *)
Definition cardinality_violation : JsError :=
  mkError "error"
    "ON CONFLICT DO UPDATE command cannot affect row a second time".

(** [CREATE TABLE IF NOT EXISTS tableName (...)]. *)
Definition sql_create (tableName : string)
    (d : gmap string (gmap (string * Z) Stored))
  : gmap string (gmap (string * Z) Stored) :=
  match d !! tableName with
  | Some _ => d
  | None => <[tableName := ∅]> d
  end.

Definition primary_key (item : OHLCVDataItem) : string * Z :=
  (symbol item, open_time item).

(** One proposed row of
    [INSERT ... ON CONFLICT (symbol, open_time) DO UPDATE SET
       open = excluded.open, high = excluded.high, low = excluded.low,
       close = excluded.close, volume = excluded.volume]:
    a new key is inserted with [created_at] defaulting to the statement
    time, an existing one has the five listed columns replaced. *)
Definition upsert_row (now : Z) (table : gmap (string * Z) Stored)
    (item : OHLCVDataItem) : gmap (string * Z) Stored :=
  match table !! primary_key item with
  | Some old =>
      <[primary_key item :=
          {| s_open := open item;
             s_high := high item;
             s_low := low item;
             s_close := close item;
             s_volume := volume item;
             s_close_time := s_close_time old;
             s_created_at := s_created_at old |}]> table
  | None =>
      <[primary_key item :=
          {| s_open := open item;
             s_high := high item;
             s_low := low item;
             s_close := close item;
             s_volume := volume item;
             s_close_time := close_time item;
             s_created_at := now |}]> table
  end.

(** The whole [INSERT] statement: it is atomic, and fails when the table
    is missing or when two proposed rows share a key. *)
Definition sql_upsert (tableName : string) (rows : list OHLCVDataItem)
    (now : Z) (d : gmap string (gmap (string * Z) Stored))
  : JsError + gmap string (gmap (string * Z) Stored) :=
  match d !! tableName with
  | None => inl (undefined_table tableName)
  | Some table =>
      if bool_decide (NoDup (primary_key <$> rows)) then
        inr (<[tableName := foldl (upsert_row now) table rows]> d)
      else inl cardinality_violation
  end.

(** [MAX(close_time)] over the rows of one symbol. *)
Definition max_close_time (table : gmap (string * Z) Stored) (s : string)
  : option Z :=
  map_fold
    (fun key row acc =>
       if String.eqb key.1 s then
         Some (match acc with
               | Some m => Z.max m (s_close_time row)
               | None => s_close_time row
               end)
       else acc)
    None table.

(** [SELECT symbol, EXTRACT(EPOCH FROM MAX(close_time)) * 1000
     FROM tableName WHERE symbol = ANY($1) GROUP BY symbol]. *)
Definition sql_select_latest (tableName : string) (symbols : list string)
    (d : gmap string (gmap (string * Z) Stored))
  : JsError + list (string * Z) :=
  match d !! tableName with
  | None => inl (undefined_table tableName)
  | Some table =>
      inr (omap (fun s => (fun t => (s, t)) <$> max_close_time table s)
             (remove_dups symbols))
  end.

(** [await pool.query(...)]: the statement is recorded, fails if the pool
    does, and otherwise runs [exec] on the tables at the database time. *)
Definition pool_query {A} (sql : Sql)
    (exec : Z -> gmap string (gmap (string * Z) Stored) ->
            JsError + (A * gmap string (gmap (string * Z) Stored)))
  : M A :=
  fun w =>
    let w' := set_queries (S (queries w))
                (set_trace (trace w ++ [EvQuery sql]) w) in
    match pool_fault w (queries w) with
    | Some e => (Throw e, w')
    | None =>
        match exec (db_clock w (queries w)) (db w) with
        | inl e => (Throw e, w')
        | inr (a, d) => (Ret a, set_db d w')
        end
    end.

Definition query_create (tableName : string) : M unit :=
  pool_query (CreateTableIfNotExists tableName)
    (fun _ d => inr (tt, sql_create tableName d)).

Definition query_upsert (tableName : string) (rows : list OHLCVDataItem)
  : M unit :=
  pool_query (InsertOnConflictUpdate tableName rows)
    (fun now d =>
       match sql_upsert tableName rows now d with
       | inl e => inl e
       | inr d' => inr (tt, d')
       end).

Definition query_select_latest (tableName : string) (symbols : list string)
  : M (list (string * Z)) :=
  pool_query (SelectLatestTimes tableName symbols)
    (fun _ d =>
       match sql_select_latest tableName symbols d with
       | inl e => inl e
       | inr rows => inr (rows, d)
       end).

(** Modelled from the spec: [utils/retry.ts] is not among the sources.  The
    spec gives it a fixed attempt ceiling and a fixed delay between
    attempts; a success ends it, and the last failure is rethrown. *)
Fixpoint retry_attempts {A} (fn : M A) (attempts : nat) (delayMs : Z) : M A :=
  match attempts with
  | O => throw (Error "retry: no attempts")
  | S n =>
      match n with
      | O => fn
      | S _ => try_catch fn (fun _ => sleep delayMs;; retry_attempts fn n delayMs)
      end
  end.

(** Modelled from the spec: [retry(fn, maxRetries?, retryDelayMs?)] of
    [utils/retry.ts], with the defaults taken from the environment
    record. *)
Definition retry {A} (fn : M A) (maxRetries retryDelayMs : option Z) : M A :=
  e ← get_env;
  retry_attempts fn
    (Z.to_nat (default (RETRY_DEFAULT_ATTEMPTS e) maxRetries))
    (default (RETRY_DEFAULT_DELAY_MS e) retryDelayMs).

Definition getTableName (exchangeName marketType : string) : string :=
  (exchangeName ++ "_" ++ marketType ++ "_ohlcv")%string.

Definition ensureTableExists (exchangeName marketType : string) : M unit :=
  let tableName := getTableName exchangeName marketType in
  retry (query_create tableName) None None.

Definition persistToPostgres (data : list OHLCVDataItem)
    (exchangeName marketType : string) : M unit :=
  if (length data =? 0)%nat then mret tt
  else
    let tableName := getTableName exchangeName marketType in
    try_catch
      (retry (query_upsert tableName data) None None;;
       console LLog (Persisted (length data) tableName))
      (fun error =>
         console LError (ErrorPersisting tableName error);; throw error).

Definition getLatestTimesForAllSymbols (symbols : list string)
    (exchangeName marketType : string) : M (gmap string Z) :=
  let tableName := getTableName exchangeName marketType in
  try_catch
    (rows ← query_select_latest tableName symbols;
     mret (foldl (fun latestTimesMap row => <[row.1 := row.2]> latestTimesMap)
             ∅ rows))
    (fun _ => console LLog (TableMightNotExist tableName);; mret ∅).

(** The body of the loop over the batches, for the batch that starts at
    index [i]. *)
Definition persist_batch (data : list OHLCVDataItem)
    (exchangeName marketType : string) (maxRetries retryDelayMs batchSize : Z)
    (i : Z) : M unit :=
  let batchData := deduplicateOHLCVData (slice data i (i + batchSize)) in
  try_catch
    (retry (persistToPostgres batchData exchangeName marketType)
       (Some maxRetries) (Some retryDelayMs);;
     console LLog (BatchPersisted exchangeName marketType i))
    (fun error =>
       console LError (BatchFailed exchangeName marketType maxRetries i error)).

(** The loop [for (let i = 0; i < data.length; i += batchSize)].  With
    [batchSize >= 1] the index passes [data.length] within [data.length]
    iterations; otherwise it never does, and the loop does not end. *)
Fixpoint batch_loop (data : list OHLCVDataItem)
    (exchangeName marketType : string) (maxRetries retryDelayMs batchSize : Z)
    (fuel : nat) (i : Z) : M unit :=
  if Z.of_nat (length data) <=? i then mret tt
  else
    match fuel with
    | O => diverge
    | S fuel' =>
        persist_batch data exchangeName marketType maxRetries retryDelayMs
          batchSize i;;
        batch_loop data exchangeName marketType maxRetries retryDelayMs
          batchSize fuel' (i + batchSize)
    end.

(** [persistOHLCVInBatches(data, exchangeName, marketType,
                           maxRetries = 3, retryDelayMs = 1000)]. *)
Definition persistOHLCVInBatches (data : list OHLCVDataItem)
    (exchangeName marketType : string) (maxRetries retryDelayMs : option Z)
  : M unit :=
  let maxRetries := default 3 maxRetries in
  let retryDelayMs := default 1000 retryDelayMs in
  if (length data =? 0)%nat then console LWarn NoDataProvided
  else
    ensureTableExists exchangeName marketType;;
    e ← get_env;
    let batchSize := PERSISTENCE_BATCH_SIZE e in
    batch_loop data exchangeName marketType maxRetries retryDelayMs batchSize
      (length data) 0.

End Db.

(* ===================================================================== *)
(** * loading/fetch-exchange-ohlcv.ts                                     *)
(* ===================================================================== *)

Module Loader.

Import FetchOhlcv Parsing Db.

(** [arr.includes(s)] on an array of strings. *)
Definition includes_string (arr : list string) (s : string) : bool :=
  existsb (String.eqb s) arr.

(** [x === false]. *)
Definition is_false (x : option bool) : bool :=
  match x with
  | Some false => true
  | _ => false
  end.

(** [arr.filter(pred)] for a callback that may write to the console. *)
Fixpoint filterM {A} (pred : A -> M bool) (arr : list A) : M (list A) :=
  match arr with
  | [] => mret []
  | el :: rest =>
      keep ← pred el;
      rest' ← filterM pred rest;
      mret (if (keep : bool) then el :: rest' else rest')
  end.

Definition defaultQuoteFilter (markets : list Market) : M (list Market) :=
  filterM
    (fun el =>
       let interestedQuoteCurrencies := ["USD"; "USDT"; "USDC"; "EUR"; "EURI"] in
       let interestedFuturesSettlementCurrencies :=
         ["USD"; "USDC"; "USDT"; "EUR"] in
       if bool_decide (m_type el = Some "swap")
          && match m_settle el with
             | None => true
             | Some settle =>
                 negb (includes_string interestedFuturesSettlementCurrencies
                         settle)
             end
       then mret false
       else if match m_quote el with
               | None => true
               | Some quote =>
                   String.eqb quote ""
                   || negb (includes_string interestedQuoteCurrencies quote)
               end
       then mret false
       else mret true)
    markets.

Definition defaultMarketsFilter (markets : list Market) : M (list Market) :=
  filterM
    (fun el =>
       e ← get_env;
       let interestedMarkets := MARKET_TYPES e in
       match m_type el with
       | None =>
           console LLog (MarketTypeNotSpecified (m_symbol el));; mret false
       | Some type =>
           if negb (includes_string interestedMarkets type)
              || (is_false (m_future el) && is_false (m_swap el)
                  && is_false (m_contract el))
           then mret false
           else if is_false (m_active el) then mret false
           else mret true
       end)
    markets.

Record Options : Type := mkOptions {
  marketsFilter : option (list Market -> M (list Market));
  quoteFilter : option (list Market -> M (list Market))
}.

(** [await exchange.loadMarkets()]. *)
Definition exchange_loadMarkets (exchange : Exchange)
  : M (option (list (string * Market))) :=
  match loadMarkets exchange with
  | inl e => throw e
  | inr markets => mret markets
  end.

(** [markets[symbol]]. *)
Definition market_of (markets : list (string * Market)) (symbol : string)
  : option Market :=
  snd <$> List.find (fun entry => String.eqb entry.1 symbol) markets.

(** [const from = latestTime != null ? formatUnixDatetimeForCCXT(latestTime)
      : formatUnixDatetimeForCCXT(Date.now() - env.HISTORICAL_DATA_TO_KEEP_MS)].
    [formatUnixDatetimeForCCXT] prints a timestamp as an ISO date and
    [dateToTimestamp] reads it back, so [from] is carried as the timestamp
    itself. *)
Definition resolve_from (latestTime : option Z) : M Z :=
  match latestTime with
  | Some t => mret t
  | None =>
      now ← date_now;
      e ← get_env;
      mret (now - HISTORICAL_DATA_TO_KEEP_MS e)
  end.

(** The body of the loop over [symbols]. *)
Definition sync_symbol (exchange : Exchange) (exchangeName : string)
    (markets : list (string * Market))
    (latestSpotSymbolsTime latestPerpSymbolsTime : gmap string Z)
    (symbols : list string) (i : nat) (symbol : string) : M unit :=
  match market_of markets symbol ≫= m_type with
  | None => console LWarn (NoTypeFound symbol)
  | Some type =>
      if String.eqb type "" then console LWarn (NoTypeFound symbol)
      else
        let latestTime :=
          if String.eqb type "spot" then latestSpotSymbolsTime !! symbol
          else latestPerpSymbolsTime !! symbol in
        from ← resolve_from latestTime;
        rawOhlcvData ← fetchOHLCVData exchange symbol "1m" from None;
        ohlcvData ← parseOHLCVData rawOhlcvData symbol None;
        persistOHLCVInBatches ohlcvData exchangeName type None None;;
        console LLog
          (Scraped (i + 1) (length symbols) exchangeName symbol
             (length ohlcvData))
  end.

(** [for (let i = 0; i < symbols.length; i++) { ... }], from index [i]. *)
Fixpoint symbols_loop (body : nat -> string -> M unit) (i : nat)
    (rest : list string) : M unit :=
  match rest with
  | [] => mret tt
  | symbol :: rest' => body i symbol;; symbols_loop body (S i) rest'
  end.

(** [ccxt[exchangeName]], when it is a constructor. *)
Definition exchange_class (exchangeName : string) : M (option Exchange) :=
  fun w => (Ret (ccxt_class w exchangeName), w).

(** The [try] block of [fetchExchangeOHLCV]. *)
Definition sync_exchange (exchange : Exchange) (exchangeName : string)
    (marketsFilter quoteFilter : list Market -> M (list Market)) : M unit :=
  loaded ← exchange_loadMarkets exchange;
  match loaded with
  | None =>
      console LError UnableToLoadMarkets;;
      throw (mkError "TypeError" "Cannot convert undefined or null to object")
  | Some markets =>
      let marketsArr := snd <$> markets in
      quoted ← quoteFilter marketsArr;
      filteredMarkets ← marketsFilter quoted;
      let symbols :=
        omap (fun el =>
                match m_symbol el with
                | Some s => if String.eqb s "" then None else Some s
                | None => None
                end)
          filteredMarkets in
      latestSpotSymbolsTime ←
        getLatestTimesForAllSymbols symbols exchangeName "swap";
      latestPerpSymbolsTime ←
        getLatestTimesForAllSymbols symbols exchangeName "spot";
      symbols_loop
        (sync_symbol exchange exchangeName markets
           latestSpotSymbolsTime latestPerpSymbolsTime symbols)
        0%nat symbols
  end.

Definition fetchExchangeOHLCV (exchangeName : string) (options : Options)
  : M unit :=
  let marketsFilter := default defaultMarketsFilter (marketsFilter options) in
  let quoteFilter := default defaultQuoteFilter (quoteFilter options) in
  ExchangeClass ← exchange_class exchangeName;
  match ExchangeClass with
  | None =>
      throw (Error ("Exchange '" ++ exchangeName ++ "' is not supported"))
  | Some exchange =>
      (if negb (has_fetchOHLCV exchange) then
         console LLog (NoFetchOHLCV exchangeName)
       else mret tt);;
      (if negb (includes_string (timeframes exchange) "1m") then
         console LLog (NoOneMinute (ex_id exchange))
       else mret tt);;
      try_finally
        (try_catch
           (sync_exchange exchange exchangeName marketsFilter quoteFilter)
           (fun err => console LError (Caught err)))
        (if has_close exchange then emit (EvClose (ex_id exchange))
         else mret tt)
  end.

End Loader.

(* ===================================================================== *)
(** * server/cron-sync.ts                                                 *)
(* ===================================================================== *)

Module CronSync.

(** What the scheduler and the console see of [onTick]. *)
Inductive CronEvent : Type :=
| Starting (tick : nat)
| Unsupported (tick : nat) (exchangeName : string)
| Syncing (tick : nat) (exchangeName : string)
| Completed (tick : nat)
| Failed (tick : nat) (error : JsError).

(** The module variable [syncing], the invocations of [onTick] suspended at
    [await fetchExchangeOHLCV(exchangeNames[i])] (with the exchange being
    synced and those still to come), and the events so far. *)
Record State : Type := mkState {
  syncing : bool;
  in_flight : list (nat * (string * list string));
  next_tick : nat;
  events : list CronEvent
}.

Definition init : State := mkState false [] 0 [].

(** What moves the job: the scheduler fires [onTick], or the
    [fetchExchangeOHLCV] an invocation awaits settles. *)
Inductive Step : Type :=
| Tick
| Settle (tick : nat) (result : option JsError).

(** [exchangeNames.filter(el => supportedExchangeNames.includes(el) ...)]. *)
Definition supported_names (tick : nat) (EXCHANGE_NAMES supported : list string)
  : list string * list CronEvent :=
  (List.filter (Loader.includes_string supported) EXCHANGE_NAMES,
   Unsupported tick
     <$> List.filter (fun el => negb (Loader.includes_string supported el))
           EXCHANGE_NAMES).

(** [onTick] runs from its start, or from where it was suspended, to its
    next [await] or to its end.  JavaScript runs each such stretch without
    interruption. *)
Definition step (EXCHANGE_NAMES supported : list string) (st : State) (s : Step)
  : State :=
  match s with
  | Tick =>
      let tick := next_tick st in
      if negb (syncing st) then
        (* syncing = true; filter the names; enter the loop *)
        let '(exchangeNames, warnings) :=
          supported_names tick EXCHANGE_NAMES supported in
        match exchangeNames with
        | [] =>
            (* the loop is empty: "completed", then finally *)
            mkState false (in_flight st) (S tick)
              (events st ++ Starting tick :: warnings ++ [Completed tick])
        | first :: rest =>
            mkState true (in_flight st ++ [(tick, (first, rest))]) (S tick)
              (events st ++ Starting tick :: warnings ++ [Syncing tick first])
        end
      else
        (* the guard fails; finally { syncing = false } still runs *)
        mkState false (in_flight st) (S tick) (events st)
  | Settle tick result =>
      match List.find (fun c => Nat.eqb c.1 tick) (in_flight st) with
      | None => st
      | Some (_, (_, rest)) =>
          let others :=
            List.filter (fun c => negb (Nat.eqb c.1 tick)) (in_flight st) in
          match result, rest with
          | Some error, _ =>
              (* catch: console.error; finally { syncing = false } *)
              mkState false others (next_tick st)
                (events st ++ [Failed tick error])
          | None, [] =>
              mkState false others (next_tick st)
                (events st ++ [Completed tick])
          | None, next :: rest' =>
              mkState (syncing st) (others ++ [(tick, (next, rest'))])
                (next_tick st) (events st ++ [Syncing tick next])
          end
      end
  end.

Definition run (EXCHANGE_NAMES supported : list string) (steps : list Step)
  : State :=
  foldl (step EXCHANGE_NAMES supported) init steps.

(** The sync cycles executing in a state. *)
Definition cycles_in_progress (st : State) : nat := length (in_flight st).

(** The sync work an invocation did: the exchanges it started to sync. *)
Definition sync_work (tick : nat) (st : State) : list string :=
  omap (fun e => match e with
                 | Syncing t name => if Nat.eqb t tick then Some name else None
                 | _ => None
                 end) (events st).

End CronSync.


(* ===================================================================== *)
(** * Notions used to state the properties                                *)
(* ===================================================================== *)

#[local] Set Warnings "-clear-no-such-hyp".

(** The candle a timestamp was first seen with. *)
Definition first_seen (allData : list RawOHLCVData) (t : Z)
  : option RawOHLCVData :=
  List.find (fun x => timestamp x =? t) allData.

(** The world after more [events] and [fetched] more exchange calls. *)
Definition happened (events : list Event) (fetched : nat) (w : World) : World :=
  set_fetches (fetches w + fetched) (set_trace (trace w ++ events) w).

(** The n-th call of the exchange answers [request] with a rate-limit
    signal. *)
Definition rate_limited (exchange : Exchange) (request : FetchRequest)
    (n : nat) : Prop :=
  exists e, fetchOHLCV exchange n request = inl e
            /\ FetchOhlcv.is_rate_limit e = true.

(** The trace of one attempt at [request], and of one that is answered by a
    rate-limit signal and waits out the back-off. *)
Definition attempt (exchange : Exchange) (numRequests : JsNum) (processed : Z)
    (request : FetchRequest) : list Event :=
  [EvConsole LLog (FetchingChunk (processed + 1) numRequests);
   EvFetch (ex_id exchange) request].

Definition backed_off_attempt (exchange : Exchange) (numRequests : JsNum)
    (processed : Z) (request : FetchRequest) : list Event :=
  attempt exchange numRequests processed request
  ++ [EvConsole LLog RateLimitReached; EvSleep 60000].


(** The missing-candle count in the words of the spec: over the adjacent
    pairs whose time delta is not exactly one interval, the sum of
    [floor(delta / interval) - 1]. *)
Definition missing_between (interval : Z) (pair : RawOHLCVData * RawOHLCVData)
  : Z :=
  let delta := timestamp pair.2 - timestamp pair.1 in
  if delta =? interval then 0
  else Qfloor (inject_Z delta / inject_Z interval) - 1.

Definition missing_candles_spec (interval : Z) (data : list RawOHLCVData) : Z :=
  foldr Z.add 0 (missing_between interval <$> zip data (drop 1 data)).

(** The timestamps of a series that starts at [t0] and leaves out, before
    each further candle, the given number of whole intervals. *)
Fixpoint timeline (t0 interval : Z) (gaps : list nat) : list Z :=
  match gaps with
  | [] => [t0]
  | g :: rest =>
      t0 :: timeline (t0 + (1 + Z.of_nat g) * interval) interval rest
  end.

(** What the end of [fetchOHLCVData] writes to the console. *)
Definition aggregate_events (timeframeInterval : Z) (totalLimit : JsNum)
    (allData : list RawOHLCVData) : list Event :=
  let finalData := FetchOhlcv.aggregate allData totalLimit in
  let missingCandles :=
    FetchOhlcv.count_missing timeframeInterval finalData (Int 0) in
  [EvConsole LLog (Aggregating (length allData))]
  ++ (if gt0 missingCandles then
        [EvConsole LWarn (MissingCandles missingCandles)]
      else [])
  ++ [EvConsole LLog (SuccessfullyFetched (length finalData))].

(** The market a fetch was for, and the start time it asked for. *)
Definition fetched_market (e : Event) : option string :=
  match e with
  | EvFetch _ request => Some (market request)
  | _ => None
  end.

Definition fetched_since (e : Event) : option Z :=
  match e with
  | EvFetch _ request => Some (since request)
  | _ => None
  end.



(** The primary keys stored in a table ([∅] when the table is missing). *)
Definition table_keys (tableName : string)
    (d : gmap string (gmap (string * Z) Stored)) : gset (string * Z) :=
  match d !! tableName with
  | Some table => dom table
  | None => ∅
  end.

(** A computation that may run statements on [tableName]: it ends, it
    only adds to the trace, it removes no key from the table, and when it
    returns normally the keys of [rows] are stored. *)
Definition writes (tableName : string) (rows : list OHLCVDataItem)
    (m : M unit) : Prop :=
  forall w, exists o w' evs,
    m w = (o, w')
    /\ trace w' = trace w ++ evs
    /\ table_keys tableName (db w) ⊆ table_keys tableName (db w')
    /\ match o with
       | Ret _ =>
           list_to_set (Db.primary_key <$> rows)
           ⊆ table_keys tableName (db w')
       | Throw _ => True
       | Diverge => False
       end.

(** The batch of [data] that starts at index [i], as the writer cuts and
    deduplicates it. *)
Definition batch_at (data : list OHLCVDataItem) (batchSize i : Z)
  : list OHLCVDataItem :=
  Parsing.deduplicateOHLCVData (slice data i (i + batchSize)).


(** The batch log of a trace: the start index of each batch with whether
    it was persisted. *)
Definition batch_log (e : Event) : option (Z * bool) :=
  match e with
  | EvConsole _ (BatchPersisted _ _ i) => Some (i, true)
  | EvConsole _ (BatchFailed _ _ _ i _) => Some (i, false)
  | _ => None
  end.

Module Samples.

Definition number (s : string) : JsNumber := mkNumber s.

(** A candle at time [t] whose five values all print as [v]. *)
Definition candle (t : Z) (v : string) : RawOHLCVData :=
  mkRaw t (number v) (number v) (number v) (number v) (number v).

(** [n] one-minute candles from [t0] on. *)
Definition page (t0 : Z) (n : nat) (v : string) : list RawOHLCVData :=
  (fun i => candle (t0 + Z.of_nat i * 60000) v) <$> seq 0 n.

Definition rate_limit_error : JsError :=
  mkError "RateLimitExceeded" "binance 429 Too Many Requests".

Definition network_error : JsError :=
  mkError "NetworkError" "binance GET request timed out".

Definition sample_env : Env :=
  {| EXCHANGE_NAMES := ["binance"];
     MARKET_TYPES := ["spot"; "swap"];
     PERSISTENCE_BATCH_SIZE := 2;
     HISTORICAL_DATA_TO_KEEP_MS := 7776000000;
     RETRY_DEFAULT_ATTEMPTS := 3;
     RETRY_DEFAULT_DELAY_MS := 1000 |}.

(** A world with the given exchanges, clock and pool faults, empty
    tables and nothing in the trace. *)
Definition world (exchanges : list Exchange) (clock : nat -> Z)
    (pool_fault : nat -> option JsError)
    (db : gmap string (gmap (string * Z) Stored)) : World :=
  {| env := sample_env;
     ccxt_exchanges := ex_id <$> exchanges;
     ccxt_class :=
       fun name => List.find (fun ex => String.eqb (ex_id ex) name) exchanges;
     clock := clock;
     pool_fault := pool_fault;
     db_clock := fun _ => 0;
     ticks := 0;
     fetches := 0;
     queries := 0;
     db := db;
     trace := [] |}.


(** A one-minute spot candle already stored for BTC/USDT at time 0. *)
Definition stored_row : Stored :=
  {| s_open := "1"; s_high := "1"; s_low := "1"; s_close := "1";
     s_volume := "1"; s_close_time := 60000; s_created_at := 5 |}.

Definition spot_tables : gmap string (gmap (string * Z) Stored) :=
  {[ "binance_spot_ohlcv" := {[ ("BTC/USDT", 0) := stored_row ]} ]}.

(** A row proposed for the same key with other values and another
    [close_time]. *)
Definition revised_item : OHLCVDataItem :=
  {| symbol := "BTC/USDT"; open_time := 0;
     open := "2"; high := "2"; low := "2"; close := "2"; volume := "2";
     close_time := 90000 |}.

Definition swap_market (s : string) : Market :=
  {| m_symbol := Some s; m_type := Some "swap"; m_settle := Some "USDT";
     m_quote := Some "USDT"; m_future := Some false; m_swap := Some true;
     m_contract := Some true; m_active := Some true |}.

(** An exchange that lists two perpetual swaps and has no candles for
    either. *)
Definition two_swaps : Exchange :=
  {| ex_id := "binance";
     has_fetchOHLCV := true;
     timeframes := ["1m"];
     loadMarkets :=
       inr (Some [("BTC/USDT:USDT", swap_market "BTC/USDT:USDT");
                  ("ETH/USDT:USDT", swap_market "ETH/USDT:USDT")]);
     fetchOHLCV := fun _ _ => inr [];
     has_close := true |}.

(** An exchange that lists one perpetual swap. *)
Definition one_swap : Exchange :=
  {| ex_id := "binance";
     has_fetchOHLCV := true;
     timeframes := ["1m"];
     loadMarkets := inr (Some [("BTC/USDT:USDT", swap_market "BTC/USDT:USDT")]);
     fetchOHLCV := fun _ _ => inr [];
     has_close := true |}.

(** The swap partition holds BTC/USDT:USDT up to
    [close_time = 1700000000000]; there is no spot partition. *)
Definition swap_tables : gmap string (gmap (string * Z) Stored) :=
  {[ "binance_swap_ohlcv" :=
       {[ ("BTC/USDT:USDT", 1699999940000) :=
            {| s_open := "1"; s_high := "1"; s_low := "1"; s_close := "1";
               s_volume := "1"; s_close_time := 1700000000000;
               s_created_at := 1700000000500 |} ]} ]}.

Definition no_options : Loader.Options := Loader.mkOptions None None.

Definition clock0 : nat -> Z := fun _ => 1700000600000.

Definition no_fault : nat -> option JsError := fun _ => None.


(** Five parsed one-minute candles of BTC/USDT. *)
Definition five_items : list OHLCVDataItem :=
  Parsing.parse_candle "BTC/USDT" <$> page 0 5 "1".

Definition pool_down : JsError :=
  mkError "Error" "Connection terminated unexpectedly".

(** The pool fails the statements 2 to 10 (the nine attempts at the second
    batch of [five_items] in batches of two) and no other. *)
Definition second_batch_fails (n : nat) : option JsError :=
  if (2 <=? n)%nat && (n <=? 10)%nat then Some pool_down else None.

End Samples.

(* ===================================================================== *)
(** * Further notions: the edges of the fetcher                           *)
(* ===================================================================== *)

(** The two errors the probe raises on a series it cannot measure. *)
Definition NoDataAvailable : JsError :=
  Error "No data available for the requested market and timeframe".

Definition InsufficientData : JsError :=
  Error "Not enough data available for the requested market and timeframe".

(** The probe: the first fetch of a run. *)
Definition probe_request (market timeframe : string) (since : Z)
  : FetchRequest :=
  mkRequest market timeframe since FetchOhlcv.LIMIT.

Definition probe_events (exchange : Exchange) (market timeframe : string)
    (since : Z) : list Event :=
  [EvConsole LLog (FetchingInitial market timeframe);
   EvFetch (ex_id exchange) (probe_request market timeframe since)].

(** The request an exchange call was made with. *)
Definition fetched_request (e : Event) : option FetchRequest :=
  match e with
  | EvFetch _ request => Some request
  | _ => None
  end.

Module Cases.

(** An exchange whose n-th call returns one candle at minute [n]. *)
Definition minute_by_call : Exchange :=
  {| ex_id := "kraken";
     has_fetchOHLCV := true;
     timeframes := ["1m"];
     loadMarkets := inr (Some []);
     fetchOHLCV :=
       fun n _ => inr [Samples.candle (Z.of_nat n * 60000) "1"];
     has_close := false |}.

(** An exchange whose every call is refused with a rate-limit error. *)
Definition always_throttled : Exchange :=
  {| ex_id := "kraken";
     has_fetchOHLCV := true;
     timeframes := ["1m"];
     loadMarkets := inr (Some []);
     fetchOHLCV := fun _ _ => inl Samples.rate_limit_error;
     has_close := false |}.

Definition idle : World :=
  Samples.world [] Samples.clock0 Samples.no_fault ∅.

End Cases.

(* ===================================================================== *)
(** * Further notions: the tables                                         *)
(* ===================================================================== *)

(** [T] is the latest [close_time] stored for symbol [s]: some row of [s]
    has it, and no row of [s] has a later one. *)
Definition is_latest (table : gmap (string * Z) Stored) (s : string) (T : Z)
  : Prop :=
  (exists ot row, table !! (s, ot) = Some row /\ s_close_time row = T)
  /\ (forall ot row, table !! (s, ot) = Some row -> s_close_time row <= T).

(** A computation that ends and takes every world to one related to it. *)
Definition keeps {A} (R : World -> World -> Prop) (m : M A) : Prop :=
  forall w, exists o w', m w = (o, w') /\ o <> Diverge /\ R w w'.

(** No table that exists is dropped or changed. *)
Definition tables_kept (w w' : World) : Prop :=
  forall tableName table,
    db w !! tableName = Some table -> db w' !! tableName = Some table.

(** The row stored for a proposed item whose key was not there. *)
Definition inserted (now : Z) (item : OHLCVDataItem) : Stored :=
  {| s_open := open item; s_high := high item; s_low := low item;
     s_close := close item; s_volume := volume item;
     s_close_time := close_time item; s_created_at := now |}.

(** The five value columns of a stored row are those of a proposed item. *)
Definition holds_values (row : Stored) (item : OHLCVDataItem) : Prop :=
  s_open row = open item /\ s_high row = high item /\ s_low row = low item
  /\ s_close row = close item /\ s_volume row = volume item.

Module Cases2.

(** A pool that refuses every statement. *)
Definition pool_always_down (n : nat) : option JsError :=
  Some Samples.pool_down.

(** A proposed row for a key that [Samples.spot_tables] does not hold. *)
Definition new_item : OHLCVDataItem :=
  {| symbol := "BTC/USDT"; open_time := 60000;
     open := "3"; high := "4"; low := "2"; close := "3"; volume := "9";
     close_time := 120000 |}.

Definition zero_batch_env : Env :=
  {| EXCHANGE_NAMES := ["binance"];
     MARKET_TYPES := ["spot"; "swap"];
     PERSISTENCE_BATCH_SIZE := 0;
     HISTORICAL_DATA_TO_KEEP_MS := 7776000000;
     RETRY_DEFAULT_ATTEMPTS := 3;
     RETRY_DEFAULT_DELAY_MS := 1000 |}.

(** A world whose configured batch size is zero. *)
Definition zero_batch_world : World :=
  {| env := zero_batch_env;
     ccxt_exchanges := [];
     ccxt_class := fun _ => None;
     clock := Samples.clock0;
     pool_fault := Samples.no_fault;
     db_clock := fun _ => 0;
     ticks := 0;
     fetches := 0;
     queries := 0;
     db := ∅;
     trace := [] |}.

End Cases2.

(* ===================================================================== *)
(** * Further notions: the market filters and the cron job                *)
(* ===================================================================== *)

(** What the default quote filter asks of a market: a swap settles in one
    of four currencies, and the quote is one of five. *)
Definition quote_kept (el : Market) : Prop :=
  (m_type el = Some "swap" ->
   exists settle, m_settle el = Some settle
                  /\ settle ∈ ["USD"; "USDC"; "USDT"; "EUR"])
  /\ exists quote, m_quote el = Some quote
                   /\ quote ∈ ["USD"; "USDT"; "USDC"; "EUR"; "EURI"].

(** What the default markets filter asks of a market: a type among the
    configured ones, not all of [future], [swap] and [contract] set to
    [false], and [active] not set to [false]. *)
Definition market_kept (types : list string) (el : Market) : Prop :=
  (exists type, m_type el = Some type /\ type ∈ types)
  /\ ~ (m_future el = Some false /\ m_swap el = Some false
        /\ m_contract el = Some false)
  /\ m_active el <> Some false.

(** The states the cron job reaches when every trigger fires either while
    no cycle is in progress or while the flag is still set. *)
Inductive guarded (EXCHANGE_NAMES supported : list string)
  : CronSync.State -> Prop :=
| guarded_init : guarded EXCHANGE_NAMES supported CronSync.init
| guarded_tick st :
    guarded EXCHANGE_NAMES supported st ->
    CronSync.in_flight st = [] \/ CronSync.syncing st = true ->
    guarded EXCHANGE_NAMES supported
      (CronSync.step EXCHANGE_NAMES supported st CronSync.Tick)
| guarded_settle st tick result :
    guarded EXCHANGE_NAMES supported st ->
    guarded EXCHANGE_NAMES supported
      (CronSync.step EXCHANGE_NAMES supported st (CronSync.Settle tick result)).
(* ===================================================================== *)
(** * Properties of the JavaScript helpers                                *)
(* ===================================================================== *)

Section JsFacts.


Lemma floor_div_nonzero (a b : Z) : b <> 0 -> floor_div a b = Int (a / b).
Proof.
  intros Hb. unfold floor_div.
  destruct (Z.eqb_spec b 0); [congruence|reflexivity].
Qed.

Lemma slice_0_nonneg {A} (arr : list A) (n : Z) :
  0 <= n -> slice arr 0 n = take (Z.to_nat n) arr.
Proof.
  intros Hn. unfold slice.
  destruct (Z.ltb_spec 0 0) as [?|_]; [lia|].
  destruct (Z.ltb_spec n 0) as [?|_]; [lia|].
  rewrite (Z.min_l 0) by lia. simpl. rewrite drop_0, Z.sub_0_r.
  destruct (Z.min_spec n (Z.of_nat (length arr))) as [[? ->]|[? ->]];
    [reflexivity|].
  rewrite Nat2Z.id, !take_ge by lia. reflexivity.
Qed.

Lemma slice_is_take_drop {A} (arr : list A) (i j : Z) :
  exists k n, slice arr i j = take n (drop k arr).
Proof. unfold slice. eauto. Qed.

Lemma slice0_is_take {A} (arr : list A) (end_ : JsNum) :
  exists n, slice0 arr end_ = take n arr.
Proof.
  destruct end_ as [n| | |]; simpl.
  - unfold slice. destruct (Z.ltb_spec 0 0) as [?|_]; [lia|].
    rewrite (Z.min_l 0) by lia. simpl. rewrite drop_0. eauto.
  - exists (length arr). by rewrite take_ge.
  - by exists 0%nat.
  - by exists 0%nat.
Qed.

End JsFacts.

(* ===================================================================== *)
(** * The range planner                                                   *)
(* ===================================================================== *)

Section Planner.

Import FetchOhlcv.




End Planner.

(* ===================================================================== *)
(** * Merge, dedup, sort, trim                                            *)
(* ===================================================================== *)

Section Merge.

Import FetchOhlcv.

Implicit Types (allData : list RawOHLCVData) (seen : gset Z).

Lemma remove_duplicates_elem allData seen c :
  c ∈ remove_duplicates allData seen ->
  (timestamp c ∉ seen) /\ first_seen allData (timestamp c) = Some c.
Proof.
  revert seen. induction allData as [|c0 rest IH]; intros seen; simpl.
  - by intros ?%elem_of_nil.
  - destruct (decide (timestamp c0 ∈ seen)) as [Hin|Hnin].
    + intros [Hc Hf]%IH. split; [done|].
      destruct (Z.eqb_spec (timestamp c0) (timestamp c)); [congruence|done].
    + intros [->|Hc]%elem_of_cons.
      * split; [done|]. by rewrite Z.eqb_refl.
      * apply IH in Hc as [Hc Hf]. split; [set_solver|].
        destruct (Z.eqb_spec (timestamp c0) (timestamp c)); [set_solver|done].
Qed.

Lemma remove_duplicates_NoDup allData seen :
  NoDup (timestamp <$> remove_duplicates allData seen).
Proof.
  revert seen. induction allData as [|c0 rest IH]; intros seen; simpl.
  - constructor.
  - destruct (decide (timestamp c0 ∈ seen)); [apply IH|].
    rewrite fmap_cons. constructor; [|apply IH].
    intros (c & Hts & Hc)%list_elem_of_fmap.
    apply remove_duplicates_elem in Hc as [Hc _]. set_solver.
Qed.

Lemma remove_duplicates_filter allData seen :
  NoDup (timestamp <$> allData) ->
  remove_duplicates allData seen
  = List.filter (fun c => bool_decide (timestamp c ∉ seen)) allData.
Proof.
  revert seen. induction allData as [|c0 rest IH]; intros seen Hnd; [done|].
  rewrite fmap_cons in Hnd. apply NoDup_cons in Hnd as [Hc0 Hnd]. simpl.
  destruct (decide (timestamp c0 ∈ seen)) as [Hin|Hnin].
  - rewrite bool_decide_eq_false_2 by tauto. by apply IH.
  - rewrite bool_decide_eq_true_2 by done. f_equal.
    rewrite IH by done. apply List.filter_ext_in.
    intros c Hc%list_elem_of_In. apply bool_decide_ext.
    assert (timestamp c <> timestamp c0).
    { intros Heq. apply Hc0. rewrite <- Heq. by apply list_elem_of_fmap_2. }
    set_solver.
Qed.

Lemma remove_duplicates_app l1 l2 seen :
  remove_duplicates (l1 ++ l2) seen
  = remove_duplicates l1 seen
    ++ remove_duplicates l2 (list_to_set (timestamp <$> l1) ∪ seen).
Proof.
  revert seen. induction l1 as [|c0 rest IH]; intros seen; simpl.
  - f_equal. set_solver.
  - destruct (decide (timestamp c0 ∈ seen)) as [Hin|Hnin].
    + rewrite IH. f_equal. f_equal. set_solver.
    + simpl. f_equal. rewrite IH. f_equal. f_equal. set_solver.
Qed.

Lemma sort_insert_perm c l : sort_insert c l ≡ₚ c :: l.
Proof.
  induction l as [|x rest IH]; simpl; [done|].
  destruct (timestamp c <=? timestamp x); [done|].
  rewrite IH. apply Permutation_swap.
Qed.

Lemma sort_by_timestamp_perm l : sort_by_timestamp l ≡ₚ l.
Proof.
  induction l as [|x rest IH]; simpl; [done|].
  by rewrite sort_insert_perm, IH.
Qed.

Lemma sort_insert_sorted c l :
  StronglySorted (fun a b => timestamp a <= timestamp b) l ->
  StronglySorted (fun a b => timestamp a <= timestamp b) (sort_insert c l).
Proof.
  induction l as [|x rest IH]; simpl; intros Hs.
  - repeat constructor.
  - apply StronglySorted_cons in Hs as [Hx Hs].
    destruct (Z.leb_spec (timestamp c) (timestamp x)).
    + apply StronglySorted_cons. split; [|by apply StronglySorted_cons].
      constructor; [done|]. eapply Forall_impl; [exact Hx|]. simpl. lia.
    + apply StronglySorted_cons. split; [|by apply IH].
      rewrite sort_insert_perm. constructor; [lia|done].
Qed.

Lemma sort_by_timestamp_sorted l :
  StronglySorted (fun a b => timestamp a <= timestamp b) (sort_by_timestamp l).
Proof.
  induction l as [|x rest IH]; simpl; [constructor|].
  by apply sort_insert_sorted.
Qed.

Lemma sorted_NoDup_strict l :
  StronglySorted (fun a b => timestamp a <= timestamp b) l ->
  NoDup (timestamp <$> l) ->
  StronglySorted (fun a b => timestamp a < timestamp b) l.
Proof.
  induction l as [|x rest IH]; [constructor|].
  rewrite fmap_cons. intros [Hx Hs]%StronglySorted_cons [Hnx Hnd]%NoDup_cons.
  apply StronglySorted_cons. split; [|by apply IH].
  apply Forall_forall. intros y Hy.
  rewrite Forall_forall in Hx. specialize (Hx y Hy).
  assert (timestamp y <> timestamp x).
  { intros Heq. apply Hnx. rewrite <- Heq. by apply list_elem_of_fmap_2. }
  lia.
Qed.

Lemma aggregate_prefix allData totalLimit :
  exists n,
    aggregate allData totalLimit
    = take n (sort_by_timestamp (remove_duplicates allData ∅)).
Proof. unfold aggregate. apply slice0_is_take. Qed.

Lemma aggregate_elem allData totalLimit c :
  c ∈ aggregate allData totalLimit -> c ∈ remove_duplicates allData ∅.
Proof.
  destruct (aggregate_prefix allData totalLimit) as [n ->].
  intros Hc%subseteq_take. by rewrite sort_by_timestamp_perm in Hc.
Qed.

Lemma filter_split_length {A} (p : A -> bool) (l : list A) :
  (length (List.filter p l) + length (List.filter (fun x => negb (p x)) l)
   = length l)%nat.
Proof.
  induction l as [|x rest IH]; simpl; [done|].
  destruct (p x); simpl; lia.
Qed.

Lemma remove_duplicates_fresh allData :
  NoDup (timestamp <$> allData) -> remove_duplicates allData ∅ = allData.
Proof.
  intros Hnd. rewrite remove_duplicates_filter by done.
  clear Hnd. induction allData as [|x rest IH]; simpl; [done|].
  rewrite bool_decide_eq_true_2 by set_solver. by f_equal.
Qed.

Lemma remove_duplicates_two_pages page1 page2 :
  NoDup (timestamp <$> page1) ->
  NoDup (timestamp <$> page2) ->
  (length (remove_duplicates (page1 ++ page2) ∅)
   + length (List.filter
               (fun c => bool_decide (timestamp c ∈ timestamp <$> page1)) page2)
   = length page1 + length page2)%nat.
Proof.
  intros Hnd1 Hnd2.
  rewrite remove_duplicates_app, length_app, remove_duplicates_fresh by done.
  rewrite remove_duplicates_filter by done.
  rewrite <- (filter_split_length
                (fun c => bool_decide (timestamp c ∈ timestamp <$> page1)) page2).
  rewrite <- Nat.add_assoc. f_equal. rewrite Nat.add_comm. f_equal. f_equal.
  apply List.filter_ext. intros c.
  rewrite <- bool_decide_not. apply bool_decide_ext. set_solver.
Qed.

(** A negative [totalLimit] plans no request, so [slice] never gets to count
    from the back of fetched data. *)
Lemma negative_limit_plans_nothing market timeframe since maxLimit interval n :
  0 < maxLimit ->
  n < 0 ->
  prepare_requests market timeframe since maxLimit interval
    (calc_numRequests (Int n) maxLimit) = Some [].
Proof.
  intros Hmax Hn. unfold calc_numRequests, ceil_div_num, ceil_div.
  destruct (Z.eqb_spec maxLimit 0); [lia|]. simpl.
  assert (Hq : 0 <= (- n) / maxLimit) by (apply Z.div_pos; lia).
  unfold seqZ. rewrite Z2Nat.nonpos by (apply Z.opp_nonpos_nonneg, Hq).
  reflexivity.
Qed.

(** C5. The merged output is strictly ascending in [open_time], has no
    duplicate [open_time], has at most [total_needed] entries, and holds at
    every timestamp the candle first seen with it; two pages that overlap in
    10 timestamps merge into as many entries as both pages have together
    minus 10. *)
Theorem C5_merge_output (allData : list RawOHLCVData) (totalLimit : JsNum) :
  let merged := aggregate allData totalLimit in
  StronglySorted (fun a b => timestamp a < timestamp b) merged
  /\ NoDup (timestamp <$> merged)
  /\ (forall n, totalLimit = Int n -> 0 <= n -> Z.of_nat (length merged) <= n)
  /\ (forall c, c ∈ merged -> first_seen allData (timestamp c) = Some c)
  /\ (forall page1 page2 n,
        allData = page1 ++ page2 ->
        NoDup (timestamp <$> page1) ->
        NoDup (timestamp <$> page2) ->
        length (List.filter
                  (fun c => bool_decide (timestamp c ∈ timestamp <$> page1))
                  page2) = 10%nat ->
        totalLimit = Int n ->
        Z.of_nat (length page1 + length page2 - 10) <= n ->
        length merged = (length page1 + length page2 - 10)%nat).
Proof.
  intros merged.
  destruct (aggregate_prefix allData totalLimit) as [k Hk].
  assert (Hnd : NoDup (timestamp <$> merged)).
  { unfold merged. rewrite Hk, fmap_take.
    refine (sublist_NoDup _ _ _ (sublist_take _ _)).
    rewrite sort_by_timestamp_perm. apply remove_duplicates_NoDup. }
  split; [|split; [done|split; [|split]]].
  - apply sorted_NoDup_strict; [|done].
    unfold merged. rewrite Hk.
    apply (StronglySorted_app_1_l _ _ (drop k (sort_by_timestamp
                                                 (remove_duplicates allData ∅)))).
    rewrite take_drop. apply sort_by_timestamp_sorted.
  - intros n -> Hn. unfold merged, aggregate. simpl.
    rewrite slice_0_nonneg, length_take by done. lia.
  - intros c Hc%aggregate_elem. by apply remove_duplicates_elem in Hc as [_ ?].
  - intros page1 page2 n -> Hnd1 Hnd2 Hov -> Hn.
    pose proof (remove_duplicates_two_pages page1 page2 Hnd1 Hnd2) as Hlen.
    unfold merged, aggregate. simpl.
    rewrite slice_0_nonneg by lia.
    rewrite length_take, (Permutation_length (sort_by_timestamp_perm _)).
    lia.
Qed.

End Merge.

Lemma C5_merge_output_witness :
  let page1 := Samples.page 0 12 "1" in
  let page2 := Samples.page 120000 12 "2" in
  let merged := FetchOhlcv.aggregate (page1 ++ page2) (Int 100) in
  length merged = 14%nat
  /\ Z.of_nat (length merged) <= 100
  /\ (Samples.candle 120000 "1" ∈ merged ->
      first_seen (page1 ++ page2) 120000 = Some (Samples.candle 120000 "1")).
Proof.
  intros page1 page2 merged.
  destruct (C5_merge_output (page1 ++ page2) (Int 100))
    as (_ & _ & Htrim & Hfirst & Hpages).
  split; [|split].
  - apply (Hpages page1 page2 100); try reflexivity.
    + refine (bool_decide_unpack _ _). vm_compute. exact I.
    + refine (bool_decide_unpack _ _). vm_compute. exact I.
    + vm_compute. discriminate.
  - apply (Htrim 100); [reflexivity|lia].
  - intros Hin. exact (Hfirst _ Hin).
Defined.

(* ===================================================================== *)
(** * The effect monad, step by step                                      *)
(* ===================================================================== *)

Section Effects.

Lemma happened_nil w : happened [] 0 w = w.
Proof.
  destruct w. unfold happened, set_fetches, set_trace. simpl.
  by rewrite app_nil_r, Nat.add_0_r.
Qed.

Lemma happened_happened ev1 n1 ev2 n2 w :
  happened ev2 n2 (happened ev1 n1 w) = happened (ev1 ++ ev2) (n1 + n2) w.
Proof.
  destruct w. unfold happened, set_fetches, set_trace. simpl.
  by rewrite app_assoc, Nat.add_assoc.
Qed.

Lemma fetches_happened ev n w : fetches (happened ev n w) = (fetches w + n)%nat.
Proof. by destruct w. Qed.

Lemma trace_happened ev n w : trace (happened ev n w) = trace w ++ ev.
Proof. by destruct w. Qed.

Lemma emit_happened e w : emit e w = (Ret tt, happened [e] 0 w).
Proof.
  destruct w. unfold emit, happened, set_fetches, set_trace. simpl.
  by rewrite Nat.add_0_r.
Qed.

Lemma exchange_fetchOHLCV_happened exchange request w :
  exchange_fetchOHLCV exchange request w
  = (match fetchOHLCV exchange (fetches w) request with
     | inl e => Throw e
     | inr data => Ret data
     end,
     happened [EvFetch (ex_id exchange) request] 1 w).
Proof.
  destruct w. unfold exchange_fetchOHLCV, happened, set_fetches, set_trace.
  simpl. rewrite Nat.add_1_r. by destruct (fetchOHLCV _ _ _).
Qed.

Lemma bind_ret {A B} (m : M A) (k : A -> M B) w a w' :
  m w = (Ret a, w') -> (m ≫= k) w = k a w'.
Proof. intros H. unfold mbind, M_bind, bind. by rewrite H. Qed.

Lemma bind_throw {A B} (m : M A) (k : A -> M B) w e w' :
  m w = (Throw e, w') -> (m ≫= k) w = (Throw e, w').
Proof. intros H. unfold mbind, M_bind, bind. by rewrite H. Qed.

Lemma bind_diverge {A B} (m : M A) (k : A -> M B) w w' :
  m w = (Diverge, w') -> (m ≫= k) w = (Diverge, w').
Proof. intros H. unfold mbind, M_bind, bind. by rewrite H. Qed.

Lemma try_catch_ret {A} (m : M A) h w a w' :
  m w = (Ret a, w') -> try_catch m h w = (Ret a, w').
Proof. intros H. unfold try_catch. by rewrite H. Qed.

Lemma try_catch_throw {A} (m : M A) h w e w' :
  m w = (Throw e, w') -> try_catch m h w = h e w'.
Proof. intros H. unfold try_catch. by rewrite H. Qed.


End Effects.

(** Runs the console output and sleeps at the head of a computation. *)
Ltac msteps :=
  unfold mbind, M_bind, bind, mret, M_ret, ret, console, sleep, throw;
  repeat (rewrite ?emit_happened, ?happened_happened; cbv beta iota zeta).

(* ===================================================================== *)
(** * The paged fetcher                                                   *)
(* ===================================================================== *)

Section PagedFetcher.

Import FetchOhlcv.

Variables (exchange : Exchange) (numReq : JsNum) (request : FetchRequest).

Lemma fetch_while_success fuel retryCount allData processed w chunk :
  fetchOHLCV exchange (fetches w) request = inr chunk ->
  fetch_while exchange request numReq (S fuel) retryCount allData processed w
  = (Ret (retryCount, allData ++ chunk, processed + 1),
     happened (attempt exchange numReq processed request) 1 w).
Proof.
  intros Hok. cbn [fetch_while].
  unfold mbind, M_bind, bind, try_catch, console.
  rewrite emit_happened, exchange_fetchOHLCV_happened, fetches_happened.
  rewrite Nat.add_0_r, Hok. simpl. by rewrite happened_happened.
Qed.

Lemma fetch_while_other_error fuel retryCount allData processed w e :
  fetchOHLCV exchange (fetches w) request = inl e ->
  is_rate_limit e = false ->
  fetch_while exchange request numReq (S fuel) retryCount allData processed w
  = (Throw e, happened (attempt exchange numReq processed request) 1 w).
Proof.
  intros Herr Hrl. cbn [fetch_while].
  unfold mbind, M_bind, bind, try_catch, console.
  rewrite emit_happened, exchange_fetchOHLCV_happened, fetches_happened.
  rewrite Nat.add_0_r, Herr, Hrl. simpl. by rewrite happened_happened.
Qed.

Lemma fetch_while_rate_limited fuel retryCount allData processed w :
  rate_limited exchange request (fetches w) ->
  fetch_while exchange request numReq (S fuel) retryCount allData processed w
  = fetch_while exchange request numReq fuel (retryCount + 1) allData
      processed
      (happened (backed_off_attempt exchange numReq processed request) 1 w).
Proof.
  intros (e & Herr & Hrl). cbn [fetch_while].
  unfold mbind, M_bind, bind, try_catch, console, sleep.
  rewrite emit_happened, exchange_fetchOHLCV_happened, fetches_happened.
  rewrite Nat.add_0_r, Herr, Hrl. cbv beta iota.
  rewrite happened_happened, emit_happened. cbv beta iota.
  rewrite emit_happened. cbv beta iota.
  unfold mret, M_ret, ret. rewrite !happened_happened. reflexivity.
Qed.

(** [k] attempts in a row that are answered by a rate-limit signal. *)
Lemma fetch_while_backoffs (k : nat) :
  forall fuel retryCount allData processed w,
    (forall j, (j < k)%nat ->
       rate_limited exchange request (fetches w + j)) ->
    fetch_while exchange request numReq (k + fuel) retryCount allData
      processed w
    = fetch_while exchange request numReq fuel (retryCount + Z.of_nat k)
        allData processed
        (happened
           (mjoin (replicate k
                     (backed_off_attempt exchange numReq processed request)))
           k w).
Proof.
  induction k as [|k IH]; intros fuel retryCount allData processed w Hrl.
  - simpl. by rewrite happened_nil, Z.add_0_r.
  - cbn [Nat.add replicate mjoin list_join].
    rewrite fetch_while_rate_limited.
    + rewrite IH.
      * rewrite happened_happened. f_equal. lia.
      * intros j Hj. rewrite fetches_happened, <- Nat.add_assoc.
        apply Hrl. lia.
    + rewrite <- (Nat.add_0_r (fetches w)). apply Hrl. lia.
Qed.

Lemma fuel_split (k : nat) :
  (k <= 3)%nat -> Z.to_nat (maxRetries - 0) = (k + (3 - k))%nat.
Proof. unfold maxRetries. lia. Qed.

Lemma fetch_request_success (k : nat) allData processed w chunk :
  (k < 3)%nat ->
  (forall j, (j < k)%nat -> rate_limited exchange request (fetches w + j)) ->
  fetchOHLCV exchange (fetches w + k) request = inr chunk ->
  fetch_request exchange numReq request (allData, processed) w
  = (Ret (allData ++ chunk, processed + 1),
     happened
       (mjoin (replicate k
                 (backed_off_attempt exchange numReq processed request))
        ++ attempt exchange numReq processed request ++ [EvSleep 100])
       (k + 1) w).
Proof.
  intros Hk Hrl Hok. unfold fetch_request. cbn [fst snd].
  rewrite (fuel_split k) by lia.
  replace (3 - k)%nat with (S (2 - k)) by lia.
  unfold mbind, M_bind, bind.
  rewrite fetch_while_backoffs by done.
  rewrite (fetch_while_success _ _ _ _ _ chunk)
    by (by rewrite fetches_happened).
  destruct (Z.leb_spec maxRetries (0 + Z.of_nat k)) as [Hle|_];
    [unfold maxRetries in Hle; lia|].
  unfold mret, M_ret, ret, sleep. rewrite emit_happened.
  rewrite !happened_happened. reflexivity.
Qed.



End PagedFetcher.

Section WholeRun.

Import FetchOhlcv.



Lemma fetchOHLCVData_fetch_returns exchange market timeframe since toDate
    w plan w1 allData w2 :
  plan_requests exchange market timeframe since toDate w = (Ret plan, w1) ->
  fetch_sequentially exchange (numRequests plan) (requests plan) w1
    = (Ret allData, w2) ->
  fetchOHLCVData exchange market timeframe since toDate w
  = aggregate_and_check (timeframeInterval plan) (totalLimit plan) allData w2.
Proof.
  intros Hplan Hfetch. unfold fetchOHLCVData.
  assert (Hagg : exists final w3,
             aggregate_and_check (timeframeInterval plan) (totalLimit plan)
               allData w2 = (Ret final, w3)).
  { unfold aggregate_and_check, mbind, M_bind, bind, console.
    rewrite emit_happened.
    destruct (gt0 _); [rewrite emit_happened|unfold mret, M_ret, ret];
      rewrite emit_happened; eauto. }
  destruct Hagg as (final & w3 & Hagg). rewrite Hagg.
  apply try_catch_ret.
  erewrite bind_ret by exact Hplan. erewrite bind_ret by exact Hfetch. done.
Qed.


End WholeRun.



(* ===================================================================== *)
(** * The gap check                                                       *)
(* ===================================================================== *)

Section GapCheck.

Import FetchOhlcv.

Lemma count_missing_step interval prev cur rest acc :
  count_missing interval (prev :: cur :: rest) acc
  = count_missing interval (cur :: rest)
      (if timestamp cur - timestamp prev =? interval then acc
       else add acc (pred (floor_div (timestamp cur - timestamp prev)
                             interval))).
Proof. reflexivity. Qed.

Lemma missing_candles_spec_step interval prev cur rest :
  missing_candles_spec interval (prev :: cur :: rest)
  = missing_between interval (prev, cur)
    + missing_candles_spec interval (cur :: rest).
Proof. reflexivity. Qed.

Lemma missing_between_nonzero interval prev cur :
  interval <> 0 ->
  (if timestamp cur - timestamp prev =? interval then Int 0
   else pred (floor_div (timestamp cur - timestamp prev) interval))
  = Int (missing_between interval (prev, cur)).
Proof.
  intros Hi. unfold missing_between. cbn [fst snd]. rewrite <- Zdiv_Qdiv.
  destruct (_ =? _); [done|]. by rewrite floor_div_nonzero.
Qed.

Lemma count_missing_acc interval data acc :
  interval <> 0 ->
  count_missing interval data (Int acc)
  = Int (acc + missing_candles_spec interval data).
Proof.
  intros Hi. revert acc. induction data as [|prev rest IH]; intros acc.
  - simpl. f_equal. unfold missing_candles_spec. simpl. lia.
  - destruct rest as [|cur rest].
    + simpl. f_equal. unfold missing_candles_spec. simpl. lia.
    + rewrite count_missing_step, missing_candles_spec_step.
      pose proof (missing_between_nonzero interval prev cur Hi) as Hm.
      destruct (_ =? _).
      * injection Hm as <-. rewrite IH. f_equal; lia.
      * rewrite Hm. cbn [add]. rewrite IH. f_equal; lia.
Qed.

Lemma missing_candles_timeline interval gaps :
  interval <> 0 ->
  forall t0 data,
    timestamp <$> data = timeline t0 interval gaps ->
    missing_candles_spec interval data = Z.of_nat (sum_list gaps).
Proof.
  intros Hi. induction gaps as [|g gaps IH]; intros t0 data Hts.
  - destruct data as [|c [|? ?]]; try discriminate. reflexivity.
  - destruct data as [|prev [|cur rest]]; try discriminate.
    { destruct gaps; discriminate. }
    cbn [timeline] in Hts. rewrite fmap_cons in Hts.
    injection Hts as Hprev Hrest.
    rewrite missing_candles_spec_step, (IH _ (cur :: rest) Hrest).
    assert (Hcur : timestamp cur = t0 + (1 + Z.of_nat g) * interval).
    { destruct gaps; simpl in Hrest; by injection Hrest. }
    unfold missing_between. cbn [fst snd]. rewrite <- Zdiv_Qdiv, Hcur, Hprev.
    replace (t0 + (1 + Z.of_nat g) * interval - t0)
      with ((1 + Z.of_nat g) * interval) by lia.
    rewrite Z.div_mul by done.
    cbn [sum_list sum_list_with]. unfold id.
    destruct (Z.eqb_spec ((1 + Z.of_nat g) * interval) interval) as [Heq|Hne].
    + assert (Z.of_nat g = 0) by nia. lia.
    + lia.
Qed.

Lemma aggregate_and_check_returns timeframeInterval totalLimit allData w :
  aggregate_and_check timeframeInterval totalLimit allData w
  = (Ret (aggregate allData totalLimit),
     happened (aggregate_events timeframeInterval totalLimit allData) 0 w).
Proof.
  unfold aggregate_and_check, aggregate_events.
  destruct (gt0 _); msteps; reflexivity.
Qed.

(** C8. The gap checker adds up, over the adjacent pairs whose time delta is
    not exactly one interval, [floor(delta / interval) - 1]; on a series
    that leaves out [k] whole intervals in all the counter is [k]; and
    whatever the counter is, a run whose pages were all fetched returns the
    final data, a positive counter only adding a warning to the console. *)
Theorem C8_gap_check (interval : Z) (finalData : list RawOHLCVData) :
  interval <> 0 ->
  count_missing interval finalData (Int 0)
  = Int (missing_candles_spec interval finalData)
  /\ (forall t0 gaps,
        timestamp <$> finalData = timeline t0 interval gaps ->
        count_missing interval finalData (Int 0)
        = Int (Z.of_nat (sum_list gaps)))
  /\ (forall exchange market timeframe since toDate w plan w1 allData w2,
        plan_requests exchange market timeframe since toDate w
          = (Ret plan, w1) ->
        timeframeInterval plan = interval ->
        fetch_sequentially exchange (numRequests plan) (requests plan) w1
          = (Ret allData, w2) ->
        finalData = aggregate allData (totalLimit plan) ->
        let missingCandles := count_missing interval finalData (Int 0) in
        fetchOHLCVData exchange market timeframe since toDate w
        = (Ret finalData,
           happened
             ([EvConsole LLog (Aggregating (length allData))]
              ++ (if gt0 missingCandles then
                    [EvConsole LWarn (MissingCandles missingCandles)]
                  else [])
              ++ [EvConsole LLog (SuccessfullyFetched (length finalData))])
             0 w2)).
Proof.
  intros Hi. split; [|split].
  - by rewrite count_missing_acc.
  - intros t0 gaps Hts. rewrite count_missing_acc by done. f_equal.
    simpl. by eapply missing_candles_timeline.
  - intros exchange market timeframe since toDate w plan w1 allData w2
      Hplan <- Hfetch ->.
    rewrite (fetchOHLCVData_fetch_returns _ _ _ _ _ _ _ _ _ _ Hplan Hfetch).
    apply aggregate_and_check_returns.
Qed.

Lemma C8_gap_check_witness :
  let finalData :=
    [Samples.candle 0 "1"; Samples.candle 60000 "1";
     Samples.candle 240000 "1"; Samples.candle 300000 "1";
     Samples.candle 420000 "1"] in
  60000 <> 0
  /\ count_missing 60000 finalData (Int 0) = Int 3
  /\ timestamp <$> finalData = timeline 0 60000 [0; 2; 0; 1]%nat.
Proof.
  intros finalData. split; [lia|]. split; [|reflexivity].
  refine (proj1 (proj2 (C8_gap_check 60000 finalData _)) 0 [0; 2; 0; 1]%nat _).
  - lia.
  - reflexivity.
Defined.

End GapCheck.

(* ===================================================================== *)
(** * The parse step                                                      *)
(* ===================================================================== *)

Section Parse.

Import Parsing Loader.

Lemma filter_sublist {A} (p : A -> bool) (l : list A) :
  List.filter p l `sublist_of` l.
Proof.
  induction l as [|x l IH]; simpl; [constructor|].
  destruct (p x); by constructor.
Qed.

Lemma parseOHLCVData_default ohlcvData sym w :
  parseOHLCVData ohlcvData sym None w
  = (Ret (List.filter (fun item => close_time item <=? clock w (ticks w))
            (List.map (parse_candle sym) ohlcvData)),
     set_ticks (S (ticks w)) w).
Proof. reflexivity. Qed.

(** C10. With its default flag, as the pipeline calls it, the parse step
    gives every candle [close_time = open_time + 60000], drops exactly the
    candles whose [close_time] is after now and keeps the others in their
    order; the writer of the pipeline is handed that list. *)
Theorem C10_parse_excludes_open_candles
    (ohlcvData : list RawOHLCVData) (sym : string) (w : World) :
  let now := clock w (ticks w) in
  exists items,
    parseOHLCVData ohlcvData sym None w = (Ret items, set_ticks (S (ticks w)) w)
    /\ (forall item, item ∈ items ->
          symbol item = sym
          /\ close_time item = open_time item + 60000
          /\ close_time item <= now)
    /\ (forall candle, candle ∈ ohlcvData ->
          timestamp candle + 60000 <= now ->
          parse_candle sym candle ∈ items)
    /\ items `sublist_of` (parse_candle sym <$> ohlcvData)
    /\ (forall exchange exchangeName markets spot perp symbols i type from
               w0 w1,
          market_of markets sym ≫= m_type = Some type ->
          type <> "" ->
          resolve_from (if String.eqb type "spot" then spot !! sym
                        else perp !! sym) w0 = (Ret from, w1) ->
          FetchOhlcv.fetchOHLCVData exchange sym "1m" from None w1
            = (Ret ohlcvData, w) ->
          sync_symbol exchange exchangeName markets spot perp symbols i sym w0
          = (Db.persistOHLCVInBatches items exchangeName type None None;;
             console LLog
               (Scraped (i + 1) (length symbols) exchangeName sym
                  (length items)))
              (set_ticks (S (ticks w)) w)).
Proof.
  intros now. eexists. split; [apply parseOHLCVData_default|].
  split; [|split; [|split]].
  - intros item [Hin Hle]%list_elem_of_In%filter_In.
    apply in_map_iff in Hin as (candle & <- & _).
    repeat split. by apply Z.leb_le in Hle.
  - intros candle Hin Hle. apply list_elem_of_In, filter_In. split.
    + apply in_map. by apply list_elem_of_In.
    + apply Z.leb_le. exact Hle.
  - apply filter_sublist.
  - intros exchange exchangeName markets spot perp symbols i type from w0 w1
      Htype Hne Hfrom Hfetch.
    unfold sync_symbol. rewrite Htype.
    destruct (String.eqb_spec type ""); [done|].
    erewrite bind_ret by exact Hfrom.
    erewrite bind_ret by exact Hfetch.
    erewrite bind_ret by apply parseOHLCVData_default.
    reflexivity.
Qed.

Lemma C10_parse_excludes_open_candles_witness :
  let w := Samples.world [] (fun _ => 150000) (fun _ => None) ∅ in
  Parsing.parseOHLCVData (Samples.page 0 3 "1") "BTC/USDT" None w
  = (Ret [Parsing.parse_candle "BTC/USDT" (Samples.candle 0 "1");
          Parsing.parse_candle "BTC/USDT" (Samples.candle 60000 "1")],
     set_ticks 1 w)
  /\ Parsing.parse_candle "BTC/USDT" (Samples.candle 0 "1")
     ∈ [Parsing.parse_candle "BTC/USDT" (Samples.candle 0 "1");
        Parsing.parse_candle "BTC/USDT" (Samples.candle 60000 "1")].
Proof.
  intros w.
  destruct (C10_parse_excludes_open_candles (Samples.page 0 3 "1") "BTC/USDT" w)
    as (items & Hrun & _ & Hkeep & _).
  assert (Hitems : items
                   = [Parsing.parse_candle "BTC/USDT" (Samples.candle 0 "1");
                      Parsing.parse_candle "BTC/USDT"
                        (Samples.candle 60000 "1")]).
  { rewrite parseOHLCVData_default in Hrun. by injection Hrun as <-. }
  split; [by rewrite Hrun, Hitems|].
  rewrite <- Hitems. apply Hkeep.
  - apply list_elem_of_In. left. reflexivity.
  - vm_compute. discriminate.
Defined.

End Parse.

(* ===================================================================== *)
(** * The upsert                                                          *)
(* ===================================================================== *)

Section Upsert.

Import Db.

Implicit Types (table : gmap (string * Z) Stored) (rows : list OHLCVDataItem).

Lemma upsert_row_lookup_ne now table item key :
  key <> primary_key item ->
  upsert_row now table item !! key = table !! key.
Proof.
  intros Hne. unfold upsert_row.
  destruct (table !! primary_key item); by rewrite lookup_insert_ne.
Qed.

Lemma upsert_row_conflict now table item old :
  table !! primary_key item = Some old ->
  upsert_row now table item !! primary_key item
  = Some {| s_open := open item; s_high := high item; s_low := low item;
            s_close := close item; s_volume := volume item;
            s_close_time := s_close_time old;
            s_created_at := s_created_at old |}.
Proof. intros H. unfold upsert_row. by rewrite H, lookup_insert_eq. Qed.

Lemma upsert_rows_frame now rows table key :
  key ∉ primary_key <$> rows ->
  foldl (upsert_row now) table rows !! key = table !! key.
Proof.
  revert table. induction rows as [|r rows IH]; intros table Hkey; [done|].
  rewrite fmap_cons, not_elem_of_cons in Hkey. destruct Hkey as [Hne Hkey].
  simpl. rewrite IH by done. by apply upsert_row_lookup_ne.
Qed.

Lemma upsert_rows_conflict now rows table item old :
  NoDup (primary_key <$> rows) ->
  item ∈ rows ->
  table !! primary_key item = Some old ->
  foldl (upsert_row now) table rows !! primary_key item
  = Some {| s_open := open item; s_high := high item; s_low := low item;
            s_close := close item; s_volume := volume item;
            s_close_time := s_close_time old;
            s_created_at := s_created_at old |}.
Proof.
  revert table. induction rows as [|r rows IH]; intros table Hnd Hin Hold.
  - by apply elem_of_nil in Hin.
  - rewrite fmap_cons in Hnd. apply NoDup_cons in Hnd as [Hr Hnd].
    simpl. apply elem_of_cons in Hin as [->|Hin].
    + rewrite upsert_rows_frame by done. by apply upsert_row_conflict.
    + apply IH; [done|done|].
      rewrite upsert_row_lookup_ne; [done|].
      intros Heq. apply Hr. rewrite <- Heq. by apply list_elem_of_fmap_2.
Qed.

Lemma retry_attempts_first_success {A} (fn : M A) (n : nat) delayMs w a w' :
  (1 <= n)%nat ->
  fn w = (Ret a, w') ->
  retry_attempts fn n delayMs w = (Ret a, w').
Proof.
  intros Hn Hfn. destruct n as [|[|n]]; [lia|done|].
  simpl. by apply try_catch_ret.
Qed.

Lemma retry_first_success {A} (fn : M A) maxRetries retryDelayMs w a w' :
  1 <= default (RETRY_DEFAULT_ATTEMPTS (env w)) maxRetries ->
  fn w = (Ret a, w') ->
  retry fn maxRetries retryDelayMs w = (Ret a, w').
Proof.
  intros Hn Hfn. unfold retry, mbind, M_bind, bind, get_env.
  apply retry_attempts_first_success; [lia|done].
Qed.






End Upsert.

(* ===================================================================== *)
(** * The loop over the symbols of an exchange                            *)
(* ===================================================================== *)

Section SymbolLoop.

Import Loader.






End SymbolLoop.

Section SymbolLoopExamples.

Import Loader.



(** C2 on a perpetual swap whose own partition holds it up to
    [close_time = 1700000000000]: the resume time is read from the spot
    partition, where the symbol is not, and the fetch starts at
    [now - lookback]. *)
Lemma C2_swap_resumes_from_lookback :
  let wa :=
    Samples.world [Samples.one_swap] Samples.clock0 Samples.no_fault Samples.swap_tables in
  let run := fetchExchangeOHLCV "binance" Samples.no_options wa in
  (db wa !! Db.getTableName "binance" "swap"
     ≫= fun table => Db.max_close_time table "BTC/USDT:USDT")
  = Some 1700000000000
  /\ omap fetched_market (trace run.2) = ["BTC/USDT:USDT"]
  /\ omap fetched_since (trace run.2) = [1700000600000 - 7776000000]
  /\ omap fetched_since (trace run.2) <> [1700000000000].
Proof. vm_compute. repeat split; discriminate. Qed.

End SymbolLoopExamples.

(* ===================================================================== *)
(** * The re-entrancy flag of the cron job                                *)
(* ===================================================================== *)

Section Cron.

Import CronSync.

(** C9 on three triggers in a row, none of the cycles having finished: the
    second finds the flag set and does nothing but clear it, so the third
    starts a second cycle while the first is still in progress. *)
Lemma C9_third_trigger_starts_second_cycle :
  let after2 := run ["binance"] ["binance"] [Tick; Tick] in
  let after3 := run ["binance"] ["binance"] [Tick; Tick; Tick] in
  cycles_in_progress after2 = 1%nat
  /\ sync_work 1 after2 = []
  /\ syncing after2 = false
  /\ cycles_in_progress after3 = 2%nat
  /\ sync_work 2 after3 = ["binance"].
Proof. vm_compute. repeat split. Qed.

End Cron.

(* ===================================================================== *)
(** * The batched writer                                                  *)
(* ===================================================================== *)

Section Batches.

Import Parsing Db.

Implicit Types (table : gmap (string * Z) Stored) (rows : list OHLCVDataItem).

Lemma dom_upsert_row now table item :
  dom (upsert_row now table item) = {[primary_key item]} ∪ dom table.
Proof.
  unfold upsert_row. destruct (table !! primary_key item); apply dom_insert_L.
Qed.

Lemma dom_upsert_rows now rows table :
  dom (foldl (upsert_row now) table rows)
  = list_to_set (primary_key <$> rows) ∪ dom table.
Proof.
  revert table. induction rows as [|r rows IH]; intros table; simpl.
  - set_solver.
  - rewrite IH, dom_upsert_row. set_solver.
Qed.

Lemma table_keys_insert tableName table d :
  table_keys tableName (<[tableName := table]> d) = dom table.
Proof. unfold table_keys. by rewrite lookup_insert_eq. Qed.

Lemma writes_query_upsert tableName rows :
  writes tableName rows (query_upsert tableName rows).
Proof.
  intros w. unfold query_upsert, pool_query.
  destruct (pool_fault w (queries w)) as [e|].
  { eexists _, _, _. split; [reflexivity|]. by destruct w. }
  unfold sql_upsert.
  destruct (db w !! tableName) as [table|] eqn:Htable.
  2:{ eexists _, _, _. split; [reflexivity|]. by destruct w. }
  destruct (bool_decide (NoDup (primary_key <$> rows))).
  2:{ eexists _, _, _. split; [reflexivity|]. by destruct w. }
  eexists _, _, _. split; [reflexivity|].
  split; [by destruct w|].
  assert (Hkeys : table_keys tableName (db w) = dom table)
    by (unfold table_keys; by rewrite Htable).
  destruct w; simpl in *.
  rewrite table_keys_insert, Hkeys, dom_upsert_rows. set_solver.
Qed.

Lemma writes_retry_attempts tableName rows fn n delayMs :
  writes tableName rows fn ->
  writes tableName rows (retry_attempts fn n delayMs).
Proof.
  intros Hfn. induction n as [|n IH]; intros w.
  - exists (Throw (Error "retry: no attempts")), w, [].
    split; [done|]. by rewrite app_nil_r.
  - destruct n as [|n]; [apply Hfn|].
    cbn [retry_attempts]. unfold try_catch.
    destruct (Hfn w) as (o & w1 & evs1 & Hrun & Htr1 & Hk1 & Ho).
    rewrite Hrun. destruct o as [[]|e|]; [by eexists _, _, _| |done].
    unfold mbind, M_bind, bind, sleep. rewrite emit_happened.
    destruct (IH (happened [EvSleep delayMs] 0 w1))
      as (o & w2 & evs2 & Hrun2 & Htr2 & Hk2 & Ho2).
    exists o, w2, (evs1 ++ [EvSleep delayMs] ++ evs2).
    split; [exact Hrun2|]. split; [|split].
    + rewrite Htr2, trace_happened, Htr1. by rewrite <- !app_assoc.
    + etrans; [exact Hk1|]. etrans; [|exact Hk2]. by destruct w1.
    + exact Ho2.
Qed.

Lemma writes_retry tableName rows fn maxRetries retryDelayMs :
  writes tableName rows fn ->
  writes tableName rows (retry fn maxRetries retryDelayMs).
Proof.
  intros Hfn w. unfold retry, mbind, M_bind, bind, get_env.
  by apply writes_retry_attempts.
Qed.

Lemma writes_persistToPostgres rows exchangeName marketType :
  writes (getTableName exchangeName marketType) rows
    (persistToPostgres rows exchangeName marketType).
Proof.
  intros w. unfold persistToPostgres.
  destruct rows as [|r rows].
  { exists (Ret tt), w, []. split; [done|]. rewrite app_nil_r.
    repeat split; set_solver. }
  cbn [length Nat.eqb]. unfold try_catch, mbind, M_bind, bind.
  destruct (writes_retry _ _ _ None None
              (writes_query_upsert (getTableName exchangeName marketType)
                 (r :: rows)) w)
    as (o & w1 & evs1 & Hrun & Htr1 & Hk1 & Ho).
  rewrite Hrun. destruct o as [[]|e|]; [| |done].
  - unfold console. rewrite emit_happened.
    eexists _, _, _. split; [reflexivity|].
    rewrite trace_happened, Htr1, <- app_assoc.
    split; [reflexivity|]. by destruct w1.
  - unfold console. rewrite emit_happened.
    eexists _, _, _. split; [reflexivity|].
    rewrite trace_happened, Htr1, <- app_assoc.
    split; [reflexivity|]. by destruct w1.
Qed.

(** One batch: the loop body always returns normally, having logged the
    batch as persisted (with its keys stored) or as failed. *)
Lemma persist_batch_outcome data exchangeName marketType maxRetries
    retryDelayMs batchSize i w :
  let tableName := getTableName exchangeName marketType in
  let batchData := deduplicateOHLCVData (slice data i (i + batchSize)) in
  exists w' evs,
    persist_batch data exchangeName marketType maxRetries retryDelayMs
      batchSize i w = (Ret tt, w')
    /\ trace w' = trace w ++ evs
    /\ table_keys tableName (db w) ⊆ table_keys tableName (db w')
    /\ ((EvConsole LLog (BatchPersisted exchangeName marketType i) ∈ evs
         /\ list_to_set (primary_key <$> batchData)
            ⊆ table_keys tableName (db w'))
        \/ (exists e,
              EvConsole LError
                (BatchFailed exchangeName marketType maxRetries i e) ∈ evs)).
Proof.
  intros tableName batchData. unfold persist_batch. fold batchData.
  unfold try_catch, mbind, M_bind, bind.
  destruct (writes_retry _ _ _ (Some maxRetries) (Some retryDelayMs)
              (writes_persistToPostgres batchData exchangeName marketType) w)
    as (o & w1 & evs1 & Hrun & Htr1 & Hk1 & Ho).
  rewrite Hrun. destruct o as [[]|e|]; [| |done].
  - unfold console. rewrite emit_happened.
    eexists _, _. split; [reflexivity|].
    rewrite trace_happened, Htr1, <- app_assoc.
    split; [reflexivity|]. split; [by destruct w1|].
    left. split; [set_solver|by destruct w1].
  - unfold console. rewrite emit_happened.
    eexists _, _. split; [reflexivity|].
    rewrite trace_happened, Htr1, <- app_assoc.
    split; [reflexivity|]. split; [by destruct w1|].
    right. exists e. set_solver.
Qed.





(** Five rows in batches of two, the pool failing every attempt at the
    second batch: the first and the third batch are persisted, the second
    is logged as failed and its rows are not stored. *)
Lemma batches_around_a_failed_one :
  let w := Samples.world [] (fun _ => 0) Samples.second_batch_fails ∅ in
  let run :=
    persistOHLCVInBatches Samples.five_items "binance" "spot" None None w in
  run.1 = Ret tt
  /\ omap batch_log (trace run.2) = [(0, true); (2, false); (4, true)]
  /\ table_keys "binance_spot_ohlcv" (db run.2)
     = {[ ("BTC/USDT", 0); ("BTC/USDT", 60000); ("BTC/USDT", 240000) ]}.
Proof.
  intros w run. split; [vm_compute; reflexivity|].
  split; [vm_compute; reflexivity|].
  apply set_eq. intros key. rewrite <- !elem_of_elements.
  assert (Hel : elements (table_keys "binance_spot_ohlcv" (db run.2))
                ≡ₚ elements ({[ ("BTC/USDT", 0); ("BTC/USDT", 60000);
                                ("BTC/USDT", 240000) ]} : gset (string * Z))).
  { vm_compute. reflexivity. }
  by rewrite Hel.
Qed.

End Batches.

(* ===================================================================== *)
(** * The fetcher at its edges                                            *)
(* ===================================================================== *)

Section FetcherEdges.

Import FetchOhlcv.



Lemma plan_requests_probe exchange market timeframe since toDate w :
  plan_requests exchange market timeframe since toDate w
  = match fetchOHLCV exchange (fetches w)
            (probe_request market timeframe since) with
    | inl e =>
        (Throw e, happened (probe_events exchange market timeframe since) 1 w)
    | inr initialData =>
        (mret initialData ≫= fun initialData =>
           match initialData with
           | [] => throw NoDataAvailable
           | [_] => throw InsufficientData
           | first :: second :: _ =>
               let maxLimit := Z.of_nat (length initialData) in
               let timeframeInterval := timestamp second - timestamp first in
               totalLimit ←
                 match toDate with
                 | None =>
                     now ← date_now;
                     mret (calc_totalLimit now (timestamp first)
                             timeframeInterval)
                 | Some endTimestamp =>
                     mret (calc_totalLimit endTimestamp (timestamp first)
                             timeframeInterval)
                 end;
               let numRequests := calc_numRequests totalLimit maxLimit in
               console LLog
                 (Downloading market timeframe (timestamp first) toDate);;
               console LLog (TotalRequests numRequests);;
               match prepare_requests market timeframe since maxLimit
                       timeframeInterval numRequests with
               | None => diverge
               | Some requests =>
                   mret (mkPlan timeframeInterval totalLimit numRequests
                           requests)
               end
           end)
          (happened (probe_events exchange market timeframe since) 1 w)
    end.
Proof.
  unfold plan_requests, probe_events, probe_request.
  unfold mbind at 1 2, M_bind at 1 2, bind at 1 2, console at 1.
  rewrite emit_happened, exchange_fetchOHLCV_happened, fetches_happened.
  rewrite Nat.add_0_r, happened_happened.
  destruct (fetchOHLCV _ _ _); reflexivity.
Qed.

Lemma fetchOHLCVData_plan_throws exchange market timeframe since toDate w
    e w1 :
  plan_requests exchange market timeframe since toDate w = (Throw e, w1) ->
  fetchOHLCVData exchange market timeframe since toDate w
  = (Throw e, happened [EvConsole LError (ErrorFetching e)] 0 w1).
Proof.
  intros Hplan. unfold fetchOHLCVData.
  erewrite try_catch_throw by (by apply bind_throw).
  unfold mbind, M_bind, bind, console. by rewrite emit_happened.
Qed.

(** The probe is fetched once, outside the retry loop: whatever error it
    raises, a rate-limit signal included, ends the run at once as that
    error, with no back-off and no second call. *)
Theorem probe_error_is_not_retried exchange market timeframe since toDate w e :
  fetchOHLCV exchange (fetches w) (probe_request market timeframe since)
    = inl e ->
  fetchOHLCVData exchange market timeframe since toDate w
  = (Throw e,
     happened
       (probe_events exchange market timeframe since
        ++ [EvConsole LError (ErrorFetching e)])
       1 w).
Proof.
  intros Herr.
  erewrite fetchOHLCVData_plan_throws.
  2:{ rewrite plan_requests_probe, Herr. reflexivity. }
  by rewrite happened_happened.
Qed.

(** A probe that returns no candle, or a single one, ends the run with the
    error for that case after the one probe call: no page is requested. *)
Theorem probe_too_short_is_fatal exchange market timeframe since toDate w
    initialData :
  fetchOHLCV exchange (fetches w) (probe_request market timeframe since)
    = inr initialData ->
  (length initialData < 2)%nat ->
  let e := if decide (initialData = []) then NoDataAvailable
           else InsufficientData in
  fetchOHLCVData exchange market timeframe since toDate w
  = (Throw e,
     happened
       (probe_events exchange market timeframe since
        ++ [EvConsole LError (ErrorFetching e)])
       1 w).
Proof.
  intros Hok Hlen e. subst e.
  destruct initialData as [|c [|c' rest]]; [| |simpl in Hlen; lia].
  - erewrite fetchOHLCVData_plan_throws.
    2:{ rewrite plan_requests_probe, Hok. reflexivity. }
    by rewrite happened_happened.
  - erewrite fetchOHLCVData_plan_throws.
    2:{ rewrite plan_requests_probe, Hok. reflexivity. }
    by rewrite happened_happened.
Qed.



Lemma fetch_while_bounded exchange numReq request fuel :
  forall retryCount allData processed w,
  exists o w',
    fetch_while exchange request numReq fuel retryCount allData processed w
      = (o, w')
    /\ o <> Diverge
    /\ (fetches w <= fetches w' <= fetches w + fuel)%nat
    /\ (0 < fuel -> fetches w < fetches w')%nat.
Proof.
  induction fuel as [|fuel IH]; intros retryCount allData processed w.
  - eexists _, _. split; [reflexivity|]. split; [done|]. lia.
  - destruct (fetchOHLCV exchange (fetches w) request) as [e|chunk] eqn:Hans.
    + destruct (is_rate_limit e) eqn:Hrl.
      * rewrite fetch_while_rate_limited by (by exists e).
        destruct (IH (retryCount + 1) allData processed
                    (happened (backed_off_attempt exchange numReq processed
                                 request) 1 w))
          as (o & w' & Hrun & Ho & Hle & _).
        exists o, w'. split; [exact Hrun|]. split; [exact Ho|].
        rewrite fetches_happened in Hle. lia.
      * rewrite (fetch_while_other_error _ _ _ _ _ _ _ _ e) by done.
        eexists _, _. split; [reflexivity|]. split; [done|].
        rewrite fetches_happened. lia.
    + rewrite (fetch_while_success _ _ _ _ _ _ _ _ chunk) by done.
      eexists _, _. split; [reflexivity|]. split; [done|].
      rewrite fetches_happened. lia.
Qed.

(** Whatever the exchange answers, one planned request costs at least one
    and at most three calls, and the fetcher then moves on or fails: it
    never waits on a request for ever. *)
Theorem request_costs_one_to_three_calls exchange numReq request st w :
  exists o w',
    fetch_request exchange numReq request st w = (o, w')
    /\ o <> Diverge
    /\ (fetches w < fetches w' <= fetches w + 3)%nat.
Proof.
  unfold fetch_request.
  destruct (fetch_while_bounded exchange numReq request
              (Z.to_nat (maxRetries - 0)) 0 st.1 st.2 w)
    as (o & w1 & Hrun & Ho & Hle & Hlt).
  change (Z.to_nat (maxRetries - 0)) with 3%nat in *.
  unfold mbind at 1, M_bind at 1, bind at 1. rewrite Hrun.
  destruct o as [[[retryCount allData] processed]|e|]; [| |done].
  - destruct (maxRetries <=? retryCount); msteps;
      (eexists _, _; split; [reflexivity|]; split; [done|]);
      rewrite ?fetches_happened; lia.
  - eexists _, _. split; [reflexivity|]. split; [done|]. lia.
Qed.

(** When every page is answered at the first attempt, the pages are
    requested strictly in the planned order, one call each, and the fetched
    data is their concatenation in that order. *)
Theorem pages_fetched_in_order exchange numReq requests
    (pages : nat -> list RawOHLCVData) w :
  (forall k request,
     requests !! k = Some request ->
     fetchOHLCV exchange (fetches w + k) request = inr (pages k)) ->
  exists w',
    fetch_sequentially exchange numReq requests w
    = (Ret (mjoin (pages <$> seq 0 (length requests))), w')
    /\ fetches w' = (fetches w + length requests)%nat
    /\ omap fetched_request (trace w')
       = omap fetched_request (trace w) ++ requests.
Proof.
  intros Hpages.
  assert (Hloop : forall requests pages allData processed w,
             (forall k request,
                requests !! k = Some request ->
                fetchOHLCV exchange (fetches w + k) request = inr (pages k)) ->
             exists processed' w',
               for_of requests (fetch_request exchange numReq)
                 (allData, processed) w
               = (Ret (allData ++ mjoin (pages <$> seq 0 (length requests)),
                       processed'), w')
               /\ fetches w' = (fetches w + length requests)%nat
               /\ omap fetched_request (trace w')
                  = omap fetched_request (trace w) ++ requests).
  { clear Hpages. clear requests pages w. intros reqs.
    induction reqs as [|request reqs IH];
      intros pages allData processed w Hpages.
    - exists processed, w. simpl. rewrite !app_nil_r.
      split; [reflexivity|]. split; [lia|reflexivity].
    - cbn [for_of].
      pose proof (fetch_request_success exchange numReq request 0 allData
                    processed w (pages 0%nat) ltac:(lia) ltac:(intros; lia)
                    (Hpages 0%nat request eq_refl)) as Hreq.
      erewrite bind_ret by exact Hreq.
      destruct (IH (fun k => pages (S k)) (allData ++ pages 0%nat)
                  (processed + 1)
                  (happened
                     (mjoin (replicate 0
                               (backed_off_attempt exchange numReq processed
                                  request))
                      ++ attempt exchange numReq processed request
                      ++ [EvSleep 100]) (0 + 1) w))
        as (processed' & w' & Hrun & Hf & Htr).
      { intros k r Hk. rewrite fetches_happened.
        replace (fetches w + (0 + 1) + k)%nat with (fetches w + S k)%nat by lia.
        by apply Hpages. }
      exists processed', w'. split; [|split].
      + rewrite Hrun. do 2 f_equal.
        cbn [length seq fmap list_fmap mjoin list_join].
        rewrite <- app_assoc. do 2 f_equal.
        rewrite <- seq_shift, <- list_fmap_compose. reflexivity.
      + rewrite Hf, fetches_happened. simpl. lia.
      + rewrite Htr, trace_happened, omap_app. simpl.
        by rewrite <- app_assoc. }
  destruct (Hloop requests pages [] 0 w Hpages)
    as (processed' & w' & Hrun & Hf & Htr).
  exists w'. split; [|split; [exact Hf|exact Htr]].
  unfold fetch_sequentially. erewrite bind_ret by exact Hrun. reflexivity.
Qed.

Lemma string_app_cons a (s t : string) :
  (String a s ++ t)%string = String a (s ++ t)%string.
Proof. reflexivity. Qed.

Lemma string_app_empty (t : string) : ("" ++ t)%string = t.
Proof. reflexivity. Qed.

Lemma prefix_spec (sub s : string) :
  String.prefix sub s = true <-> exists post, s = (sub ++ post)%string.
Proof.
  revert sub. induction s as [|b s IH]; intros [|a sub]; cbn [String.prefix].
  - split; [by exists ""%string|done].
  - split; [done|]. intros [post Hpost]. by rewrite string_app_cons in Hpost.
  - split; [|done]. intros _. exists (String b s). by rewrite string_app_empty.
  - destruct (Ascii.ascii_dec a b) as [->|Hne].
    + rewrite IH. split; intros [post Hpost]; exists post.
      * by rewrite string_app_cons, Hpost.
      * rewrite string_app_cons in Hpost. congruence.
    + split; [done|]. intros [post Hpost].
      rewrite string_app_cons in Hpost. congruence.
Qed.

Lemma includes_spec (s sub : string) :
  includes s sub = true
  <-> exists pre post, s = (pre ++ sub ++ post)%string.
Proof.
  induction s as [|a s IH]; cbn [includes];
    rewrite orb_true_iff, prefix_spec.
  - split.
    + intros [[post Hpost]|?]; [|done]. exists ""%string, post.
      by rewrite string_app_empty.
    + intros (pre & post & Heq). left.
      destruct pre as [|a pre]; [|by rewrite string_app_cons in Heq].
      exists post. by rewrite string_app_empty in Heq.
  - rewrite IH. split.
    + intros [[post Hpost]|(pre & post & Hpost)].
      * exists ""%string, post. by rewrite string_app_empty.
      * exists (String a pre), post. by rewrite string_app_cons, Hpost.
    + intros (pre & post & Heq). destruct pre as [|a' pre].
      * left. exists post. by rewrite string_app_empty in Heq.
      * right. exists pre, post. rewrite string_app_cons in Heq. congruence.
Qed.

(** What counts as a rate-limit signal: an error whose text contains
    "rate limit" or "429" anywhere, and no other. *)
Theorem rate_limit_signal_is_a_substring (e : JsError) :
  is_rate_limit e = true
  <-> exists pre post,
        toString e = (pre ++ "rate limit" ++ post)%string
        \/ toString e = (pre ++ "429" ++ post)%string.
Proof.
  unfold is_rate_limit. rewrite orb_true_iff, !includes_spec.
  split.
  - intros [(pre & post & H)|(pre & post & H)]; exists pre, post; auto.
  - intros (pre & post & [H|H]); [left|right]; by exists pre, post.
Qed.

End FetcherEdges.

Lemma probe_error_is_not_retried_witness :
  FetchOhlcv.fetchOHLCVData Cases.always_throttled "BTC/USD" "1m" 0 None
    Cases.idle
  = (Throw Samples.rate_limit_error,
     happened
       (probe_events Cases.always_throttled "BTC/USD" "1m" 0
        ++ [EvConsole LError (ErrorFetching Samples.rate_limit_error)])
       1 Cases.idle).
Proof.
  apply (probe_error_is_not_retried Cases.always_throttled "BTC/USD" "1m" 0
           None Cases.idle Samples.rate_limit_error).
  reflexivity.
Defined.

Lemma probe_too_short_is_fatal_witness :
  FetchOhlcv.fetchOHLCVData Samples.two_swaps "BTC/USD" "1m" 0 None Cases.idle
  = (Throw NoDataAvailable,
     happened
       (probe_events Samples.two_swaps "BTC/USD" "1m" 0
        ++ [EvConsole LError (ErrorFetching NoDataAvailable)])
       1 Cases.idle).
Proof.
  apply (probe_too_short_is_fatal Samples.two_swaps "BTC/USD" "1m" 0 None
           Cases.idle []).
  - reflexivity.
  - simpl. lia.
Defined.


Lemma pages_fetched_in_order_witness :
  let requests :=
    [mkRequest "BTC/USD" "1m" 0 FetchOhlcv.LIMIT;
     mkRequest "BTC/USD" "1m" 60000 FetchOhlcv.LIMIT] in
  exists w',
    FetchOhlcv.fetch_sequentially Cases.minute_by_call (Int 2) requests
      Cases.idle
    = (Ret [Samples.candle 0 "1"; Samples.candle 60000 "1"], w')
    /\ fetches w' = 2%nat
    /\ omap fetched_request (trace w') = requests.
Proof.
  intros requests.
  apply (pages_fetched_in_order Cases.minute_by_call (Int 2) requests
           (fun k => [Samples.candle (Z.of_nat k * 60000) "1"]) Cases.idle).
  intros k request _. reflexivity.
Defined.

(* ===================================================================== *)
(** * More on the merge                                                   *)
(* ===================================================================== *)

Section MergeMore.

Import FetchOhlcv.

Lemma sort_by_timestamp_sorted_id l :
  StronglySorted (fun a b => timestamp a <= timestamp b) l ->
  sort_by_timestamp l = l.
Proof.
  induction l as [|x rest IH]; [done|].
  intros [Hx Hrest]%StronglySorted_cons. simpl. rewrite IH by done.
  destruct rest as [|y rest]; [done|]. simpl.
  apply Forall_cons in Hx as [Hxy _].
  destruct (Z.leb_spec (timestamp x) (timestamp y)); [done|lia].
Qed.

Lemma aggregate_sorted allData totalLimit :
  StronglySorted (fun a b => timestamp a <= timestamp b)
    (aggregate allData totalLimit).
Proof.
  destruct (aggregate_prefix allData totalLimit) as [k ->].
  apply (StronglySorted_app_1_l _ _
           (drop k (sort_by_timestamp (remove_duplicates allData ∅)))).
  rewrite take_drop. apply sort_by_timestamp_sorted.
Qed.

Lemma aggregate_NoDup allData totalLimit :
  NoDup (timestamp <$> aggregate allData totalLimit).
Proof.
  destruct (aggregate_prefix allData totalLimit) as [k ->].
  rewrite fmap_take. refine (sublist_NoDup _ _ _ (sublist_take _ _)).
  rewrite sort_by_timestamp_perm. apply remove_duplicates_NoDup.
Qed.

Lemma remove_duplicates_sublist allData seen :
  remove_duplicates allData seen `sublist_of` allData.
Proof.
  revert seen. induction allData as [|c rest IH]; intros seen; simpl.
  - constructor.
  - destruct (decide _); [by apply sublist_cons|by apply sublist_skip].
Qed.

Lemma remove_duplicates_complete allData seen t c :
  first_seen allData t = Some c ->
  t ∉ seen ->
  c ∈ remove_duplicates allData seen.
Proof.
  unfold first_seen. revert seen.
  induction allData as [|x rest IH]; intros seen; simpl; [done|].
  destruct (Z.eqb_spec (timestamp x) t) as [Heq|Hne].
  - intros [= ->] Ht. rewrite decide_False by congruence. set_solver.
  - intros Hfind Ht. destruct (decide (timestamp x ∈ seen)).
    + by apply IH.
    + apply elem_of_cons. right. apply IH; [done|set_solver].
Qed.

(** Merging is idempotent: merging what a merge returned, with the same
    non-negative limit, returns it unchanged; and so is the removal of
    duplicates on its own. *)
Theorem merge_is_idempotent (allData : list RawOHLCVData) (totalLimit : JsNum) :
  (forall n, totalLimit = Int n -> 0 <= n) ->
  aggregate (aggregate allData totalLimit) totalLimit
  = aggregate allData totalLimit
  /\ remove_duplicates (remove_duplicates allData ∅) ∅
     = remove_duplicates allData ∅.
Proof.
  intros Hlimit. split.
  - set (merged := aggregate allData totalLimit).
    unfold aggregate at 1.
    rewrite (remove_duplicates_fresh merged) by apply aggregate_NoDup.
    rewrite sort_by_timestamp_sorted_id by apply aggregate_sorted.
    destruct totalLimit as [n| | |]; simpl; [|done| |].
    + rewrite slice_0_nonneg by auto. apply take_ge.
      unfold merged, aggregate. simpl.
      rewrite slice_0_nonneg, length_take by auto. lia.
    + unfold merged, aggregate. reflexivity.
    + unfold merged, aggregate. reflexivity.
  - apply remove_duplicates_fresh, remove_duplicates_NoDup.
Qed.

Lemma merge_is_idempotent_witness :
  let allData := Samples.page 0 3 "1" ++ Samples.page 60000 3 "2" in
  aggregate (aggregate allData (Int 3)) (Int 3) = aggregate allData (Int 3)
  /\ remove_duplicates (remove_duplicates allData ∅) ∅
     = remove_duplicates allData ∅.
Proof.
  intros allData. apply (merge_is_idempotent allData (Int 3)).
  intros n [= <-]. lia.
Defined.

(** No timestamp is lost: with a limit that does not trim, every timestamp
    of the fetched data is in the merged output, with the candle it was
    first seen with. *)
Theorem no_timestamp_is_lost (allData : list RawOHLCVData) (n : Z)
    (c : RawOHLCVData) :
  c ∈ allData ->
  Z.of_nat (length allData) <= n ->
  exists c',
    c' ∈ aggregate allData (Int n)
    /\ timestamp c' = timestamp c
    /\ first_seen allData (timestamp c) = Some c'.
Proof.
  intros Hin Hn.
  destruct (first_seen allData (timestamp c)) as [c'|] eqn:Hfirst.
  2:{ unfold first_seen in Hfirst.
      pose proof (find_none _ _ Hfirst c (proj1 (list_elem_of_In _ _) Hin))
        as Hc.
      simpl in Hc. by rewrite Z.eqb_refl in Hc. }
  exists c'. split; [|split; [|done]].
  - unfold aggregate. simpl. rewrite slice_0_nonneg by lia.
    rewrite take_ge.
    + rewrite sort_by_timestamp_perm.
      eapply remove_duplicates_complete; [exact Hfirst|set_solver].
    + rewrite (Permutation_length (sort_by_timestamp_perm _)).
      pose proof (sublist_length _ _ (remove_duplicates_sublist allData ∅)).
      lia.
  - unfold first_seen in Hfirst. apply find_some in Hfirst as [_ Heq].
    by apply Z.eqb_eq in Heq.
Qed.

Lemma no_timestamp_is_lost_witness :
  let allData := Samples.page 0 3 "1" ++ Samples.page 60000 3 "2" in
  exists c',
    c' ∈ aggregate allData (Int 6)
    /\ timestamp c' = 60000
    /\ first_seen allData 60000 = Some c'.
Proof.
  intros allData.
  apply (no_timestamp_is_lost allData 6 (Samples.candle 60000 "2")).
  - apply list_elem_of_In. vm_compute. tauto.
  - vm_compute. discriminate.
Defined.

(** Trimming drops only the latest candles: every candle the merge keeps is
    earlier than every deduplicated candle it leaves out. *)
Theorem trim_drops_only_the_latest (allData : list RawOHLCVData)
    (totalLimit : JsNum) (kept dropped : RawOHLCVData) :
  kept ∈ aggregate allData totalLimit ->
  dropped ∈ remove_duplicates allData ∅ ->
  dropped ∉ aggregate allData totalLimit ->
  timestamp kept < timestamp dropped.
Proof.
  destruct (aggregate_prefix allData totalLimit) as [k ->].
  set (sorted := sort_by_timestamp (remove_duplicates allData ∅)).
  intros Hkept Hdropped Hout.
  assert (Hstrict : StronglySorted (fun a b => timestamp a < timestamp b)
                      (take k sorted ++ drop k sorted)).
  { rewrite take_drop. apply sorted_NoDup_strict.
    - apply sort_by_timestamp_sorted.
    - unfold sorted. rewrite sort_by_timestamp_perm.
      apply remove_duplicates_NoDup. }
  eapply (StronglySorted_app_1_elem_of _ _ _ _ _ Hstrict); [done|].
  assert (Hall : dropped ∈ take k sorted ++ drop k sorted).
  { rewrite take_drop. unfold sorted. by rewrite sort_by_timestamp_perm. }
  apply elem_of_app in Hall as [?|?]; [done|done].
Qed.

Lemma trim_drops_only_the_latest_witness :
  let allData := Samples.page 0 3 "1" ++ Samples.page 60000 3 "2" in
  timestamp (Samples.candle 60000 "1") < timestamp (Samples.candle 180000 "2").
Proof.
  intros allData.
  apply (trim_drops_only_the_latest allData (Int 2)).
  - apply list_elem_of_In. vm_compute. tauto.
  - apply list_elem_of_In. vm_compute. tauto.
  - intros Hin%list_elem_of_In. vm_compute in Hin.
    destruct Hin as [H|[H|[]]]; discriminate.
Defined.

End MergeMore.

(* ===================================================================== *)
(** * Deduplication of parsed items                                       *)
(* ===================================================================== *)

Section Dedup.

Import Parsing Db.

Lemma dedup_filter_elem data seen item :
  item ∈ dedup_filter data seen ->
  (dedup_key item ∉ seen)
  /\ List.find (fun x => String.eqb (dedup_key x) (dedup_key item)) data
     = Some item.
Proof.
  revert seen. induction data as [|x rest IH]; intros seen; simpl.
  - by intros ?%elem_of_nil.
  - destruct (decide (dedup_key x ∈ seen)) as [Hin|Hnin].
    + intros [Hc Hf]%IH. split; [done|].
      destruct (String.eqb_spec (dedup_key x) (dedup_key item));
        [congruence|done].
    + intros [->|Hc]%elem_of_cons.
      * split; [done|]. by rewrite String.eqb_refl.
      * apply IH in Hc as [Hc Hf]. split; [set_solver|].
        destruct (String.eqb_spec (dedup_key x) (dedup_key item));
          [set_solver|done].
Qed.

Lemma dedup_filter_NoDup data seen :
  NoDup (dedup_key <$> dedup_filter data seen).
Proof.
  revert seen. induction data as [|x rest IH]; intros seen; simpl.
  - constructor.
  - destruct (decide (dedup_key x ∈ seen)); [apply IH|].
    rewrite fmap_cons. constructor; [|apply IH].
    intros (y & Hkey & Hy)%list_elem_of_fmap.
    apply dedup_filter_elem in Hy as [Hy _]. set_solver.
Qed.

Lemma dedup_filter_sublist data seen :
  dedup_filter data seen `sublist_of` data.
Proof.
  revert seen. induction data as [|x rest IH]; intros seen; simpl.
  - constructor.
  - destruct (decide _); [by apply sublist_cons|by apply sublist_skip].
Qed.

Lemma dedup_filter_covers data seen item :
  item ∈ data ->
  dedup_key item ∉ seen ->
  exists item', item' ∈ dedup_filter data seen
                /\ dedup_key item' = dedup_key item.
Proof.
  revert seen. induction data as [|x rest IH]; intros seen Hin Hkey.
  - by apply elem_of_nil in Hin.
  - simpl. destruct (decide (dedup_key x ∈ seen)) as [Hx|Hx].
    + apply elem_of_cons in Hin as [->|Hin]; [done|]. by apply IH.
    + destruct (decide (dedup_key x = dedup_key item)) as [Heq|Hne].
      * exists x. split; [set_solver|done].
      * apply elem_of_cons in Hin as [->|Hin]; [done|].
        destruct (IH ({[dedup_key x]} ∪ seen) Hin) as (item' & ? & ?);
          [set_solver|].
        exists item'. split; [set_solver|done].
Qed.

Lemma dedup_filter_fresh data :
  NoDup (dedup_key <$> data) -> dedup_filter data ∅ = data.
Proof.
  assert (H : forall seen,
             NoDup (dedup_key <$> data) ->
             (forall x, x ∈ data -> dedup_key x ∉ seen) ->
             dedup_filter data seen = data).
  { induction data as [|x rest IH]; intros seen Hnd Hseen; [done|].
    rewrite fmap_cons in Hnd. apply NoDup_cons in Hnd as [Hx Hnd]. simpl.
    rewrite decide_False by (apply Hseen; set_solver). f_equal.
    apply IH; [done|]. intros y Hy.
    assert (dedup_key y <> dedup_key x).
    { intros Heq. apply Hx. rewrite <- Heq. by apply list_elem_of_fmap_2. }
    specialize (Hseen y). set_solver. }
  intros Hnd. apply H; [done|set_solver].
Qed.

(** [deduplicateOHLCVData] keeps, in their order, exactly the first item of
    every key [symbol-close_time]: no key is repeated, none is lost, and
    running it again changes nothing. *)
Theorem dedup_keeps_the_first_of_each_key (data : list OHLCVDataItem) :
  let out := deduplicateOHLCVData data in
  out `sublist_of` data
  /\ NoDup (dedup_key <$> out)
  /\ (forall item, item ∈ out ->
        List.find (fun x => String.eqb (dedup_key x) (dedup_key item)) data
        = Some item)
  /\ (forall item, item ∈ data ->
        exists item', item' ∈ out /\ dedup_key item' = dedup_key item)
  /\ deduplicateOHLCVData out = out.
Proof.
  intros out. unfold out, deduplicateOHLCVData.
  split; [apply dedup_filter_sublist|].
  split; [apply dedup_filter_NoDup|].
  split; [intros item Hin; by apply dedup_filter_elem in Hin as [_ ?]|].
  split; [intros item Hin; apply dedup_filter_covers; [done|set_solver]|].
  apply dedup_filter_fresh, dedup_filter_NoDup.
Qed.

Lemma NoDup_fmap_transfer {A B C} (f : A -> B) (g : A -> C) (l : list A) :
  (forall x y, x ∈ l -> y ∈ l -> g x = g y -> f x = f y) ->
  NoDup (f <$> l) ->
  NoDup (g <$> l).
Proof.
  induction l as [|x l IH]; intros Hfg Hnd; [constructor|].
  rewrite fmap_cons in *. apply NoDup_cons in Hnd as [Hx Hnd].
  constructor.
  - intros (y & Heq & Hy)%list_elem_of_fmap. apply Hx.
    rewrite (Hfg x y) by set_solver. by apply list_elem_of_fmap_2.
  - apply IH; [|done]. intros y z Hy Hz. apply Hfg; set_solver.
Qed.

Lemma slice_subseteq {A} (arr : list A) (i j : Z) : slice arr i j ⊆ arr.
Proof.
  unfold slice. etrans; [apply subseteq_take|apply subseteq_drop].
Qed.

Lemma parseOHLCVData_items ohlcvData sym excludeIncomplete w items w' :
  parseOHLCVData ohlcvData sym excludeIncomplete w = (Ret items, w') ->
  forall item, item ∈ items ->
    symbol item = sym /\ close_time item = open_time item + 60000.
Proof.
  unfold parseOHLCVData.
  assert (Hmap : forall item,
             item ∈ List.map (parse_candle sym) ohlcvData ->
             symbol item = sym /\ close_time item = open_time item + 60000).
  { intros item (c & <- & _)%list_elem_of_In%in_map_iff. done. }
  destruct (default true excludeIncomplete).
  - unfold filterCompleteCandles, mbind, M_bind, bind, date_now.
    intros [= <- _] item [Hin _]%list_elem_of_In%filter_In.
    by apply Hmap, list_elem_of_In.
  - intros [= <- _]. exact Hmap.
Qed.

(** Every batch the writer cuts from parsed candles has pairwise distinct
    primary keys after deduplication, so its INSERT is never refused for
    proposing a row twice: on an existing table the statement applies. *)
Theorem parsed_batches_never_repeat_a_key
    (ohlcvData : list RawOHLCVData) (sym : string)
    (excludeIncomplete : option bool) (w w' : World)
    (items : list OHLCVDataItem) (batchSize i now : Z) (tableName : string)
    (d : gmap string (gmap (string * Z) Stored))
    (table : gmap (string * Z) Stored) :
  parseOHLCVData ohlcvData sym excludeIncomplete w = (Ret items, w') ->
  d !! tableName = Some table ->
  NoDup (primary_key <$> batch_at items batchSize i)
  /\ sql_upsert tableName (batch_at items batchSize i) now d
     = inr (<[tableName :=
                foldl (upsert_row now) table (batch_at items batchSize i)]> d).
Proof.
  intros Hparse Htable.
  assert (Hnd : NoDup (primary_key <$> batch_at items batchSize i)).
  { unfold batch_at, deduplicateOHLCVData.
    apply (NoDup_fmap_transfer dedup_key); [|apply dedup_filter_NoDup].
    assert (Hitem : forall x,
               x ∈ dedup_filter (slice items i (i + batchSize)) ∅ ->
               symbol x = sym /\ close_time x = open_time x + 60000).
    { intros x Hx. eapply parseOHLCVData_items; [exact Hparse|].
      apply (slice_subseteq items i (i + batchSize)).
      eapply elem_of_sublist; [exact Hx|apply dedup_filter_sublist]. }
    intros x y Hx Hy [= Hs Ho].
    destruct (Hitem x Hx) as [_ Hcx], (Hitem y Hy) as [_ Hcy].
    unfold dedup_key. by rewrite Hs, Hcx, Hcy, Ho. }
  split; [exact Hnd|].
  unfold sql_upsert. rewrite Htable. by rewrite bool_decide_eq_true_2.
Qed.

Lemma parsed_batches_never_repeat_a_key_witness :
  let raw := Samples.page 0 3 "1" ++ Samples.page 60000 3 "2" in
  let items := List.map (parse_candle "BTC/USDT") raw in
  NoDup (primary_key <$> batch_at items 6 0)
  /\ sql_upsert "binance_spot_ohlcv" (batch_at items 6 0) 7 Samples.spot_tables
     = inr (<["binance_spot_ohlcv" :=
                foldl (upsert_row 7) {[ ("BTC/USDT", 0) := Samples.stored_row ]}
                  (batch_at items 6 0)]> Samples.spot_tables).
Proof.
  intros raw items.
  apply (parsed_batches_never_repeat_a_key raw "BTC/USDT" (Some false)
           Cases.idle Cases.idle items 6 0 7 "binance_spot_ohlcv"
           Samples.spot_tables).
  - reflexivity.
  - reflexivity.
Defined.

End Dedup.

(* ===================================================================== *)
(** * The resume lookup                                                   *)
(* ===================================================================== *)

Section LatestTimes.

Import Db.

Implicit Types (table : gmap (string * Z) Stored).

Lemma max_close_time_spec table s :
  match max_close_time table s with
  | Some T => is_latest table s T
  | None => forall ot row, table !! (s, ot) = Some row -> False
  end.
Proof.
  unfold max_close_time.
  apply (map_fold_weak_ind
           (fun acc (m : gmap (string * Z) Stored) =>
              match acc with
              | Some T => is_latest m s T
              | None => forall ot row, m !! (s, ot) = Some row -> False
              end)).
  - intros ot row. by rewrite lookup_empty.
  - intros [s' ot'] x m acc Hfresh IH. cbn [fst].
    destruct (String.eqb_spec s' s) as [->|Hne].
    + destruct acc as [mx|].
      * destruct IH as [(ot & row & Hrow & Hclose) Hmax]. split.
        -- destruct (Z.max_spec mx (s_close_time x)) as [[_ ->]|[_ ->]].
           ++ exists ot', x. by rewrite lookup_insert_eq.
           ++ exists ot, row. split; [|done].
              rewrite lookup_insert_ne; [done|]. intros [= <-]. congruence.
        -- intros ot0 row0.
           destruct (decide ((s, ot') = (s, ot0))) as [<-|Hk].
           ++ rewrite lookup_insert_eq. intros [= <-]. lia.
           ++ rewrite lookup_insert_ne by done. intros H%Hmax. lia.
      * split.
        -- exists ot', x. by rewrite lookup_insert_eq.
        -- intros ot0 row0.
           destruct (decide ((s, ot') = (s, ot0))) as [<-|Hk].
           ++ rewrite lookup_insert_eq. intros [= <-]. lia.
           ++ rewrite lookup_insert_ne by done. intros H. by apply IH in H.
    + assert (Hlook : forall ot, <[(s', ot') := x]> m !! (s, ot) = m !! (s, ot)).
      { intros ot. apply lookup_insert_ne. congruence. }
      destruct acc as [mx|].
      * destruct IH as [(ot & row & Hrow & Hclose) Hmax]. split.
        -- exists ot, row. by rewrite Hlook.
        -- intros ot0 row0. rewrite Hlook. apply Hmax.
      * intros ot row. rewrite Hlook. apply IH.
Qed.

Lemma rows_keys_sublist {A} (g : string -> option A) (l : list string) :
  (omap (fun s => (fun t => (s, t)) <$> g s) l).*1 `sublist_of` l.
Proof.
  induction l as [|s l IH]; simpl; [constructor|].
  destruct (g s); simpl; [by apply sublist_skip|by apply sublist_cons].
Qed.

Lemma foldl_insert_rows (rows : list (string * Z)) :
  NoDup rows.*1 ->
  forall (m0 : gmap string Z) s,
    (forall v, (s, v) ∈ rows ->
       foldl (fun m row => <[row.1 := row.2]> m) m0 rows !! s = Some v)
    /\ (s ∉ rows.*1 ->
        foldl (fun m row => <[row.1 := row.2]> m) m0 rows !! s = m0 !! s).
Proof.
  induction rows as [|[k x] rows IH]; intros Hnd m0 s.
  - split; [by intros v ?%elem_of_nil|done].
  - rewrite fmap_cons in Hnd. apply NoDup_cons in Hnd as [Hk Hnd].
    cbn [foldl fst snd]. destruct (IH Hnd (<[k:=x]> m0) s) as [Hin Hout].
    split.
    + intros v [[= -> ->]|Hv]%elem_of_cons; [|by apply Hin].
      rewrite Hout by done. apply lookup_insert_eq.
    + intros Hs. rewrite fmap_cons, not_elem_of_cons in Hs.
      destruct Hs as [Hne Hs]. rewrite Hout by done.
      by apply lookup_insert_ne.
Qed.

Lemma latest_rows_lookup table symbols s :
  foldl (fun m row => <[row.1 := row.2]> m) (∅ : gmap string Z)
    (omap (fun s => (fun t => (s, t)) <$> max_close_time table s)
       (remove_dups symbols)) !! s
  = if decide (s ∈ symbols) then max_close_time table s else None.
Proof.
  set (rows := omap _ _).
  assert (Hnd : NoDup rows.*1).
  { eapply sublist_NoDup; [apply NoDup_remove_dups|].
    apply rows_keys_sublist. }
  assert (Hmem : forall v, (s, v) ∈ rows
                           <-> s ∈ symbols /\ max_close_time table s = Some v).
  { intros v. unfold rows. rewrite list_elem_of_omap. split.
    - intros (s' & Hs' & Heq). rewrite elem_of_remove_dups in Hs'.
      destruct (max_close_time table s') eqn:Hm; [|done].
      simplify_eq/=. by split.
    - intros [Hs Hm]. exists s. rewrite elem_of_remove_dups, Hm. done. }
  destruct (foldl_insert_rows rows Hnd ∅ s) as [Hin Hout].
  destruct (decide (s ∈ symbols)) as [Hs|Hs].
  - destruct (max_close_time table s) as [v|] eqn:Hm.
    + apply Hin, Hmem. done.
    + rewrite Hout; [done|].
      intros ([s' v] & Heq & Hrow)%list_elem_of_fmap. simpl in Heq. subst s'.
      apply Hmem in Hrow as [_ ?]. congruence.
  - rewrite Hout; [done|].
    intros ([s' v] & Heq & Hrow)%list_elem_of_fmap. simpl in Heq. subst s'.
    apply Hmem in Hrow as [? _]. done.
Qed.

(** The resume lookup fails soft: whatever the pool and the tables do, it
    returns a map and never throws, and it leaves the tables as they are;
    when the statement fails (the pool is down, or the table is not there)
    the map is empty. *)
Theorem latest_times_lookup_never_throws symbols exchangeName marketType w :
  exists latestTimesMap w',
    getLatestTimesForAllSymbols symbols exchangeName marketType w
      = (Ret latestTimesMap, w')
    /\ db w' = db w
    /\ (pool_fault w (queries w) <> None
        \/ db w !! getTableName exchangeName marketType = None ->
        latestTimesMap = ∅).
Proof.
  unfold getLatestTimesForAllSymbols, try_catch, mbind, M_bind, bind.
  unfold query_select_latest, pool_query, sql_select_latest.
  destruct (pool_fault w (queries w)) as [e|].
  { unfold console. rewrite emit_happened. eexists _, _.
    split; [reflexivity|]. split; [by destruct w|done]. }
  destruct (db w !! getTableName exchangeName marketType) as [table|].
  - eexists _, _. split; [reflexivity|]. split; [by destruct w|].
    by intros [?|?].
  - unfold console. rewrite emit_happened. eexists _, _.
    split; [reflexivity|]. split; [by destruct w|done].
Qed.

(** When the statement runs, the map holds, for each requested symbol that
    has rows, the latest [close_time] stored for it, and nothing else. *)
Theorem latest_times_are_the_stored_maxima symbols exchangeName marketType w
    table :
  pool_fault w (queries w) = None ->
  db w !! getTableName exchangeName marketType = Some table ->
  exists latestTimesMap w',
    getLatestTimesForAllSymbols symbols exchangeName marketType w
      = (Ret latestTimesMap, w')
    /\ forall s T,
         latestTimesMap !! s = Some T <-> s ∈ symbols /\ is_latest table s T.
Proof.
  intros Hpool Htable.
  unfold getLatestTimesForAllSymbols, try_catch, mbind, M_bind, bind.
  unfold query_select_latest, pool_query, sql_select_latest.
  rewrite Hpool, Htable. eexists _, _. split; [reflexivity|].
  intros s T. rewrite latest_rows_lookup.
  pose proof (max_close_time_spec table s) as Hspec.
  destruct (decide (s ∈ symbols)) as [Hs|Hs]; [|by split; [|intros [? _]]].
  destruct (max_close_time table s) as [T'|].
  - split.
    + by intros [= <-].
    + intros [_ [(ot & row & Hrow & Hclose) Hmax]].
      destruct Hspec as [(ot' & row' & Hrow' & Hclose') Hmax'].
      f_equal. apply Hmax in Hrow'. apply Hmax' in Hrow. lia.
  - split; [done|]. intros [_ [(ot & row & Hrow & _) _]]. by apply Hspec in Hrow.
Qed.

Lemma latest_times_are_the_stored_maxima_witness :
  let w := Samples.world [] Samples.clock0 Samples.no_fault
             Samples.swap_tables in
  exists latestTimesMap w',
    getLatestTimesForAllSymbols ["BTC/USDT:USDT"; "ETH/USDT:USDT"] "binance"
      "swap" w = (Ret latestTimesMap, w')
    /\ forall s T,
         latestTimesMap !! s = Some T
         <-> s ∈ ["BTC/USDT:USDT"; "ETH/USDT:USDT"]
             /\ is_latest
                  {[ ("BTC/USDT:USDT", 1699999940000) :=
                       {| s_open := "1"; s_high := "1"; s_low := "1";
                          s_close := "1"; s_volume := "1";
                          s_close_time := 1700000000000;
                          s_created_at := 1700000000500 |} ]} s T.
Proof.
  intros w.
  apply (latest_times_are_the_stored_maxima
           ["BTC/USDT:USDT"; "ETH/USDT:USDT"] "binance" "swap" w).
  - reflexivity.
  - reflexivity.
Defined.

End LatestTimes.

(* ===================================================================== *)
(** * Creating the table, and writing to it                               *)
(* ===================================================================== *)

Section Writer.

Import Parsing Db.

Implicit Types (table : gmap (string * Z) Stored) (rows : list OHLCVDataItem).

Lemma tables_kept_refl w : tables_kept w w.
Proof. by intros t table. Qed.

Lemma tables_kept_trans w1 w2 w3 :
  tables_kept w1 w2 -> tables_kept w2 w3 -> tables_kept w1 w3.
Proof. intros H12 H23 t table H. by apply H23, H12. Qed.

Lemma tables_kept_db w w' : db w' = db w -> tables_kept w w'.
Proof. intros Hdb t table H. by rewrite Hdb. Qed.

Lemma tables_kept_happened evs n w : tables_kept w (happened evs n w).
Proof. apply tables_kept_db. by destruct w. Qed.

Lemma keeps_retry_attempts {A} (fn : M A) n delayMs :
  keeps tables_kept fn -> keeps tables_kept (retry_attempts fn n delayMs).
Proof.
  intros Hfn. induction n as [|n IH]; intros w.
  - eexists _, w. split; [reflexivity|]. split; [done|apply tables_kept_refl].
  - destruct n as [|n]; [apply Hfn|].
    cbn [retry_attempts]. unfold try_catch.
    destruct (Hfn w) as (o & w1 & Hrun & Ho & Hk1).
    rewrite Hrun. destruct o as [a|e|]; [by eexists _, _| |done].
    unfold mbind, M_bind, bind, sleep. rewrite emit_happened.
    destruct (IH (happened [EvSleep delayMs] 0 w1)) as (o & w2 & Hrun2 & Ho2 & Hk2).
    exists o, w2. split; [exact Hrun2|]. split; [exact Ho2|].
    eapply tables_kept_trans; [exact Hk1|].
    eapply tables_kept_trans; [apply tables_kept_happened|exact Hk2].
Qed.

Lemma keeps_query_create tableName :
  keeps tables_kept (query_create tableName).
Proof.
  intros w. unfold query_create, pool_query.
  destruct (pool_fault w (queries w)).
  - eexists _, _. split; [reflexivity|]. split; [done|].
    apply tables_kept_db. by destruct w.
  - eexists _, _. split; [reflexivity|]. split; [done|].
    intros t table Ht. destruct w; simpl in *. unfold sql_create.
    destruct (db0 !! tableName) eqn:Hex; [done|].
    rewrite lookup_insert_ne; [done|]. congruence.
Qed.

(** Creating the table is safe to repeat.  Whatever the pool does,
    [ensureTableExists] ends and leaves every existing table, rows
    included, as it was; when its first statement runs, the table exists
    afterwards, and if it existed before nothing changes at all. *)
Theorem ensure_table_never_touches_what_exists exchangeName marketType w :
  let tableName := getTableName exchangeName marketType in
  (exists o w',
     ensureTableExists exchangeName marketType w = (o, w')
     /\ o <> Diverge
     /\ tables_kept w w')
  /\ (pool_fault w (queries w) = None ->
      1 <= RETRY_DEFAULT_ATTEMPTS (env w) ->
      exists w',
        ensureTableExists exchangeName marketType w = (Ret tt, w')
        /\ is_Some (db w' !! tableName)
        /\ (is_Some (db w !! tableName) -> db w' = db w)).
Proof.
  intros tableName. split.
  - unfold ensureTableExists, retry, mbind, M_bind, bind, get_env.
    apply keeps_retry_attempts, keeps_query_create.
  - intros Hpool Hn. eexists. split; [|split].
    + unfold ensureTableExists. apply retry_first_success; [exact Hn|].
      unfold query_create, pool_query. rewrite Hpool. reflexivity.
    + destruct w; simpl. unfold sql_create. fold tableName.
      destruct (db0 !! tableName) eqn:Hex; [by rewrite Hex|].
      by rewrite lookup_insert_eq.
    + intros [table Htable]. destruct w; simpl in *. unfold sql_create.
      fold tableName. by rewrite Htable.
Qed.

Lemma ensure_table_never_touches_what_exists_witness :
  let w := Samples.world [] Samples.clock0 Samples.no_fault
             Samples.spot_tables in
  exists w',
    ensureTableExists "binance" "spot" w = (Ret tt, w')
    /\ is_Some (db w' !! "binance_spot_ohlcv")
    /\ (is_Some (db w !! "binance_spot_ohlcv") -> db w' = db w).
Proof.
  intros w.
  apply (proj2 (ensure_table_never_touches_what_exists "binance" "spot" w)).
  - reflexivity.
  - vm_compute. discriminate.
Defined.

Lemma upsert_row_fresh now table item :
  table !! primary_key item = None ->
  upsert_row now table item !! primary_key item = Some (inserted now item).
Proof. intros H. unfold upsert_row. by rewrite H, lookup_insert_eq. Qed.

Lemma upsert_rows_fresh now rows table item :
  NoDup (primary_key <$> rows) ->
  item ∈ rows ->
  table !! primary_key item = None ->
  foldl (upsert_row now) table rows !! primary_key item
  = Some (inserted now item).
Proof.
  revert table. induction rows as [|r rows IH]; intros table Hnd Hin Hnew.
  - by apply elem_of_nil in Hin.
  - rewrite fmap_cons in Hnd. apply NoDup_cons in Hnd as [Hr Hnd].
    simpl. apply elem_of_cons in Hin as [->|Hin].
    + rewrite upsert_rows_frame by done. by apply upsert_row_fresh.
    + apply IH; [done|done|].
      rewrite upsert_row_lookup_ne; [done|].
      intros Heq. apply Hr. rewrite <- Heq. by apply list_elem_of_fmap_2.
Qed.

Lemma upsert_rows_values now rows table item :
  NoDup (primary_key <$> rows) ->
  item ∈ rows ->
  exists row,
    foldl (upsert_row now) table rows !! primary_key item = Some row
    /\ holds_values row item.
Proof.
  intros Hnd Hin. destruct (table !! primary_key item) as [old|] eqn:Hold.
  - eexists. split; [by eapply upsert_rows_conflict|]. by repeat split.
  - eexists. split; [by eapply upsert_rows_fresh|]. by repeat split.
Qed.

(** The upsert is idempotent: running the same INSERT again, whenever,
    leaves every table exactly as the first run left it. *)
Theorem upsert_twice_is_upsert_once (tableName : string)
    (rows : list OHLCVDataItem) (now1 now2 : Z)
    (d d1 : gmap string (gmap (string * Z) Stored)) :
  sql_upsert tableName rows now1 d = inr d1 ->
  sql_upsert tableName rows now2 d1 = inr d1.
Proof.
  unfold sql_upsert. destruct (d !! tableName) as [table|] eqn:Htable; [|done].
  destruct (bool_decide (NoDup (primary_key <$> rows))) eqn:Hnd; [|done].
  intros [= <-]. rewrite lookup_insert_eq. f_equal.
  rewrite insert_insert_eq. f_equal.
  apply bool_decide_eq_true_1 in Hnd.
  apply map_eq. intros key.
  destruct (decide (key ∈ primary_key <$> rows)) as [Hkey|Hkey].
  - apply list_elem_of_fmap in Hkey as (item & -> & Hitem).
    destruct (upsert_rows_values now1 rows table item Hnd Hitem)
      as (row & Hrow & Ho & Hh & Hl & Hc & Hv).
    rewrite (upsert_rows_conflict now2 rows _ item row Hnd Hitem Hrow), Hrow.
    f_equal. destruct row; simpl in *. by subst.
  - by rewrite upsert_rows_frame.
Qed.

Lemma upsert_twice_is_upsert_once_witness :
  let rows := [Samples.revised_item; Cases2.new_item] in
  exists d1,
    sql_upsert "binance_spot_ohlcv" rows 7 Samples.spot_tables = inr d1
    /\ sql_upsert "binance_spot_ohlcv" rows 99 d1 = inr d1.
Proof.
  intros rows. eexists. split; [reflexivity|].
  apply (upsert_twice_is_upsert_once "binance_spot_ohlcv" rows 7 99
           Samples.spot_tables).
  reflexivity.
Defined.



Lemma query_upsert_throw_db tableName rows w e w' :
  query_upsert tableName rows w = (Throw e, w') -> db w' = db w.
Proof.
  unfold query_upsert, pool_query.
  destruct (pool_fault w (queries w)); [intros [= _ <-]; by destruct w|].
  destruct (sql_upsert _ _ _ _); intros [=]; subst; by destruct w.
Qed.

Lemma retry_attempts_throw_db {A} (fn : M A) n delayMs :
  (forall w e w', fn w = (Throw e, w') -> db w' = db w) ->
  forall w e w',
    retry_attempts fn n delayMs w = (Throw e, w') -> db w' = db w.
Proof.
  intros Hfn. induction n as [|n IH]; intros w e w'.
  - by intros [= _ <-].
  - destruct n as [|n]; [apply Hfn|].
    cbn [retry_attempts]. unfold try_catch.
    destruct (fn w) as [[a|e1|] w1] eqn:Hrun; [done| |done].
    unfold mbind, M_bind, bind, sleep. rewrite emit_happened.
    intros Hrest%IH. apply Hfn in Hrun. rewrite Hrest, <- Hrun.
    by destruct w1.
Qed.

(** A persist that fails leaves the tables untouched: when
    [persistToPostgres] throws, having logged the error last, no row of any
    table was added or changed. *)
Theorem failed_persist_changes_nothing rows exchangeName marketType w e w' :
  persistToPostgres rows exchangeName marketType w = (Throw e, w') ->
  db w' = db w
  /\ last (trace w')
     = Some (EvConsole LError
               (ErrorPersisting (getTableName exchangeName marketType) e)).
Proof.
  unfold persistToPostgres.
  destruct (length rows =? 0)%nat; [done|].
  unfold try_catch, mbind at 1, M_bind at 1, bind at 1.
  destruct (retry (query_upsert (getTableName exchangeName marketType) rows)
              None None w) as [[[]|e1|] w1] eqn:Hretry.
  - unfold console. rewrite emit_happened. done.
  - unfold mbind, M_bind, bind, console. rewrite emit_happened.
    intros [= <- <-]. split.
    + unfold retry, mbind, M_bind, bind, get_env in Hretry.
      apply retry_attempts_throw_db in Hretry;
        [|apply query_upsert_throw_db].
      rewrite <- Hretry. by destruct w1.
    + rewrite trace_happened. apply last_snoc.
  - done.
Qed.

Lemma failed_persist_changes_nothing_witness :
  let w := Samples.world [] Samples.clock0 Cases2.pool_always_down
             Samples.spot_tables in
  let run := persistToPostgres [Samples.revised_item] "binance" "spot" w in
  run.1 = Throw Samples.pool_down
  /\ db run.2 = db w
  /\ last (trace run.2)
     = Some (EvConsole LError
               (ErrorPersisting "binance_spot_ohlcv" Samples.pool_down)).
Proof.
  intros w run. split; [reflexivity|].
  apply (failed_persist_changes_nothing [Samples.revised_item] "binance"
           "spot" w Samples.pool_down run.2).
  reflexivity.
Defined.

Lemma batch_loop_never_ends data exchangeName marketType maxRetries
    retryDelayMs batchSize :
  batchSize <= 0 ->
  data <> [] ->
  forall fuel i w,
    i <= 0 ->
    exists w',
      batch_loop data exchangeName marketType maxRetries retryDelayMs
        batchSize fuel i w = (Diverge, w').
Proof.
  intros Hbs Hdata. induction fuel as [|fuel IH]; intros i w Hi.
  - simpl. destruct (Z.leb_spec (Z.of_nat (length data)) i) as [Hle|_].
    + destruct data; [done|simpl in Hle; lia].
    + by eexists.
  - cbn [batch_loop].
    destruct (Z.leb_spec (Z.of_nat (length data)) i) as [Hle|_].
    { destruct data; [done|simpl in Hle; lia]. }
    destruct (persist_batch_outcome data exchangeName marketType maxRetries
                retryDelayMs batchSize i w) as (w1 & evs & Hrun & _).
    destruct (IH (i + batchSize) w1) as [w' Hloop]; [lia|].
    exists w'. by erewrite bind_ret by exact Hrun.
Qed.

(** A batch size of zero or less never gets through the data: once the
    table is ensured, the batched writer goes round its loop for ever and
    does not return. *)
Theorem nonpositive_batch_size_never_returns
    (data : list OHLCVDataItem) (exchangeName marketType : string)
    (maxRetries retryDelayMs : option Z) (w w1 : World) :
  data <> [] ->
  ensureTableExists exchangeName marketType w = (Ret tt, w1) ->
  PERSISTENCE_BATCH_SIZE (env w1) <= 0 ->
  exists w',
    persistOHLCVInBatches data exchangeName marketType maxRetries
      retryDelayMs w = (Diverge, w').
Proof.
  intros Hdata Hensure Hbs.
  destruct (batch_loop_never_ends data exchangeName marketType
              (default 3 maxRetries) (default 1000 retryDelayMs)
              (PERSISTENCE_BATCH_SIZE (env w1)) Hbs Hdata (length data) 0 w1)
    as [w' Hloop]; [lia|].
  exists w'. unfold persistOHLCVInBatches.
  destruct data as [|item data]; [done|]. cbn [length Nat.eqb].
  erewrite bind_ret by exact Hensure.
  unfold mbind, M_bind, bind, get_env. exact Hloop.
Qed.

Lemma nonpositive_batch_size_never_returns_witness :
  exists w',
    persistOHLCVInBatches Samples.five_items "binance" "spot" None None
      Cases2.zero_batch_world = (Diverge, w').
Proof.
  apply (nonpositive_batch_size_never_returns Samples.five_items "binance"
           "spot" None None Cases2.zero_batch_world
           (ensureTableExists "binance" "spot" Cases2.zero_batch_world).2).
  - discriminate.
  - reflexivity.
  - vm_compute. discriminate.
Defined.

End Writer.

(* ===================================================================== *)
(** * The market filters                                                  *)
(* ===================================================================== *)

Section Filters.

Import Loader.

Lemma includes_string_spec (arr : list string) (s : string) :
  includes_string arr s = true <-> s ∈ arr.
Proof.
  unfold includes_string. rewrite existsb_exists. split.
  - intros (x & Hx & ->%String.eqb_eq). by apply list_elem_of_In.
  - intros Hs. exists s. split; [by apply list_elem_of_In|apply String.eqb_refl].
Qed.

Lemma includes_string_decide (arr : list string) (s : string) :
  includes_string arr s = bool_decide (s ∈ arr).
Proof.
  destruct (includes_string arr s) eqn:H.
  - apply includes_string_spec in H. by rewrite bool_decide_eq_true_2.
  - rewrite bool_decide_eq_false_2; [done|].
    intros Hin%includes_string_spec. congruence.
Qed.

Lemma filterM_pure {A} (pred : A -> M bool) (keep : A -> bool)
    (logs : A -> list Event) (e0 : Env) :
  (forall el w, env w = e0 ->
     pred el w = (Ret (keep el), happened (logs el) 0 w)) ->
  forall arr w, env w = e0 ->
    filterM pred arr w
    = (Ret (List.filter keep arr), happened (mjoin (logs <$> arr)) 0 w).
Proof.
  intros Hpred. induction arr as [|el rest IH]; intros w Henv.
  - simpl. unfold mret, M_ret, ret. by rewrite happened_nil.
  - cbn [filterM]. erewrite bind_ret by (by apply Hpred).
    erewrite bind_ret by (apply IH; by destruct w).
    unfold mret, M_ret, ret. rewrite happened_happened.
    simpl. by destruct (keep el).
Qed.

(** The default quote filter writes nothing and keeps, in their order,
    exactly the markets quoted in USD, USDT, USDC, EUR or EURI whose
    settlement currency, for a swap, is USD, USDC, USDT or EUR. *)
Theorem quote_filter_keeps_the_listed_currencies (markets : list Market)
    (w : World) :
  exists kept,
    defaultQuoteFilter markets w = (Ret kept, w)
    /\ kept `sublist_of` markets
    /\ forall el, el ∈ kept <-> el ∈ markets /\ quote_kept el.
Proof.
  set (keep := fun el : Market =>
         if bool_decide (m_type el = Some "swap")
            && match m_settle el with
               | None => true
               | Some settle =>
                   negb (includes_string ["USD"; "USDC"; "USDT"; "EUR"] settle)
               end
         then false
         else if match m_quote el with
                 | None => true
                 | Some quote =>
                     String.eqb quote ""
                     || negb (includes_string
                                ["USD"; "USDT"; "USDC"; "EUR"; "EURI"] quote)
                 end
         then false else true).
  exists (List.filter keep markets). split; [|split].
  - unfold defaultQuoteFilter.
    rewrite (filterM_pure _ keep (fun _ => []) (env w)); [|..|done].
    + f_equal. clear. induction markets as [|? ? IH]; simpl.
      * apply happened_nil.
      * exact IH.
    + intros el w0 _. unfold keep. rewrite happened_nil.
      repeat case_match; reflexivity.
  - apply filter_sublist.
  - intros el. rewrite list_elem_of_In, filter_In, <- list_elem_of_In.
    apply and_iff_compat_l. unfold keep, quote_kept.
    assert (Hempty : "" ∉ ["USD"; "USDT"; "USDC"; "EUR"; "EURI"]).
    { refine (bool_decide_unpack _ _). vm_compute. exact I. }
    destruct (m_settle el) as [settle|], (m_quote el) as [quote|];
      rewrite ?includes_string_decide;
      try destruct (String.eqb_spec quote "") as [->|Hne];
      repeat case_bool_decide; simpl; naive_solver.
Qed.

(** The default markets filter keeps, in their order, exactly the markets
    whose type is configured, that are not marked inactive, and whose
    [future], [swap] and [contract] flags are not all [false] (so a market
    described with all three [false] is dropped whatever its type).  It
    logs each market without a type and touches nothing else. *)
Theorem markets_filter_keeps_configured_types (markets : list Market)
    (w : World) :
  exists kept,
    defaultMarketsFilter markets w
    = (Ret kept,
       happened
         ((fun el => EvConsole LLog (MarketTypeNotSpecified (m_symbol el)))
            <$> List.filter (fun el => bool_decide (m_type el = None)) markets)
         0 w)
    /\ kept `sublist_of` markets
    /\ forall el,
         el ∈ kept <-> el ∈ markets /\ market_kept (MARKET_TYPES (env w)) el.
Proof.
  set (keep := fun el : Market =>
         match m_type el with
         | None => false
         | Some type =>
             if negb (includes_string (MARKET_TYPES (env w)) type)
                || (is_false (m_future el) && is_false (m_swap el)
                    && is_false (m_contract el))
             then false
             else if is_false (m_active el) then false else true
         end).
  set (logs := fun el : Market =>
         match m_type el with
         | None => [EvConsole LLog (MarketTypeNotSpecified (m_symbol el))]
         | Some _ => []
         end).
  exists (List.filter keep markets). split; [|split].
  - unfold defaultMarketsFilter.
    rewrite (filterM_pure _ keep logs (env w)); [|..|done].
    + f_equal. f_equal. induction markets as [|el rest IH]; [done|].
      rewrite fmap_cons.
      change (mjoin (logs el :: (logs <$> rest)))
        with (logs el ++ mjoin (logs <$> rest)).
      rewrite IH. cbn [List.filter]. unfold logs.
      destruct (m_type el); case_bool_decide; done.
    + intros el w0 Henv. unfold keep, logs.
      unfold mbind, M_bind, bind, get_env. rewrite Henv.
      destruct (m_type el) as [type|].
      * rewrite happened_nil.
        repeat case_match; reflexivity.
      * unfold console. rewrite emit_happened. reflexivity.
  - apply filter_sublist.
  - intros el. rewrite list_elem_of_In, filter_In, <- list_elem_of_In.
    apply and_iff_compat_l. unfold keep, market_kept.
    destruct (m_type el) as [type|]; [|naive_solver].
    rewrite includes_string_decide.
    destruct (m_future el) as [[]|], (m_swap el) as [[]|],
      (m_contract el) as [[]|], (m_active el) as [[]|];
      case_bool_decide; simpl; naive_solver.
Qed.

End Filters.

(* ===================================================================== *)
(** * The sync of one exchange, and the cycle                             *)
(* ===================================================================== *)

Section ExchangeSync.

Import Loader.



End ExchangeSync.

Section CronGuard.

Import CronSync.

Variables (EXCHANGE_NAMES supported : list string).

(** The flag does its work as long as no trigger meets a cycle whose flag
    an earlier trigger has already cleared: if every trigger fires while no
    cycle is in progress or while the flag is set, at most one cycle is in
    progress at any time, and the flag is clear whenever none is. *)
Theorem guarded_triggers_never_overlap st :
  guarded EXCHANGE_NAMES supported st ->
  (cycles_in_progress st <= 1)%nat
  /\ (in_flight st = [] -> syncing st = false).
Proof.
  unfold cycles_in_progress.
  induction 1 as [|st Hst IH Hfire|st tick result Hst IH].
  - simpl. split; [lia|done].
  - destruct IH as [Hle Hidle]. unfold step.
    destruct (syncing st) eqn:Hflag; simpl.
    + split; [exact Hle|done].
    + destruct Hfire as [Hnone|?]; [|done].
      unfold supported_names.
      destruct (List.filter _ EXCHANGE_NAMES) as [|first rest]; simpl.
      * rewrite Hnone. simpl. split; [lia|done].
      * rewrite Hnone. simpl. split; [lia|done].
  - destruct IH as [Hle Hidle]. unfold step.
    destruct (List.find _ (in_flight st)) as [[t [cur rest]]|] eqn:Hfind;
      [|by split].
    assert (Hone : exists c, in_flight st = [c] /\ (c.1 =? tick)%nat = true).
    { destruct (in_flight st) as [|c [|c' l]]; [done| |simpl in Hle; lia].
      exists c. split; [done|]. simpl in Hfind.
      by destruct (c.1 =? tick)%nat. }
    destruct Hone as (c & Hc & Htick). rewrite Hc. simpl. rewrite Htick. simpl.
    destruct result as [error|]; [simpl; split; [lia|done]|].
    destruct rest as [|next rest']; simpl; split; (lia || done).
Qed.

Lemma sync_work_supported_inv steps :
  let st := foldl (step EXCHANGE_NAMES supported) init steps in
  let listed := List.filter (Loader.includes_string supported) EXCHANGE_NAMES in
  Forall (fun c => c.2.1 ∈ listed /\ c.2.2 ⊆ listed) (in_flight st)
  /\ forall tick name, Syncing tick name ∈ events st -> name ∈ listed.
Proof.
  induction steps as [|s steps IH] using rev_ind.
  - simpl. split; [constructor|]. by intros ? ? ?%elem_of_nil.
  - rewrite foldl_app. cbn [foldl].
    set (st := foldl (step EXCHANGE_NAMES supported) init steps) in *.
    cbv zeta in IH. destruct IH as [Hfl Hev].
    set (listed := List.filter _ EXCHANGE_NAMES) in *.
    destruct s as [|tick result]; unfold step.
    + destruct (syncing st); simpl; [by split|].
      unfold supported_names. fold listed.
      destruct listed as [|first rest] eqn:Hlisted; simpl.
      * split; [done|]. intros t name. rewrite elem_of_app, elem_of_cons.
        intros [H|[H|H]]; [by eapply Hev|done|].
        apply elem_of_app in H as [H|H].
        -- apply list_elem_of_fmap in H as (? & ? & _). done.
        -- apply list_elem_of_singleton in H. done.
      * split.
        -- apply Forall_app. split; [done|]. constructor; [|constructor].
           simpl. split; set_solver.
        -- intros t name. rewrite elem_of_app, elem_of_cons.
           intros [H|[H|H]]; [by eapply Hev|done|].
           apply elem_of_app in H as [H|H].
           ++ apply list_elem_of_fmap in H as (? & ? & _). done.
           ++ apply list_elem_of_singleton in H. injection H as _ ->.
              set_solver.
    + destruct (List.find _ (in_flight st)) as [[t [cur rest]]|] eqn:Hfind;
        [|by split].
      assert (Hfound : cur ∈ listed /\ rest ⊆ listed).
      { apply find_some in Hfind as [Hin _].
        rewrite Forall_forall in Hfl.
        apply (Hfl _ (proj2 (list_elem_of_In _ _) Hin)). }
      assert (Hothers : Forall (fun c => c.2.1 ∈ listed /\ c.2.2 ⊆ listed)
                          (List.filter (fun c => negb (c.1 =? tick)%nat)
                             (in_flight st))).
      { apply Forall_forall. intros c [Hc _]%list_elem_of_In%filter_In.
        rewrite Forall_forall in Hfl. by apply Hfl, list_elem_of_In. }
      destruct result as [error|]; simpl.
      * split; [done|]. intros t' name.
        rewrite elem_of_app, list_elem_of_singleton.
        intros [H|H]; [by eapply Hev|done].
      * destruct rest as [|next rest']; simpl.
        -- split; [done|]. intros t' name.
           rewrite elem_of_app, list_elem_of_singleton.
           intros [H|H]; [by eapply Hev|done].
        -- destruct Hfound as [_ Hrest]. split.
           ++ apply Forall_app. split; [done|]. constructor; [|constructor].
              simpl. split; set_solver.
           ++ intros t' name. rewrite elem_of_app, list_elem_of_singleton.
              intros [H|H]; [by eapply Hev|]. injection H as _ ->.
              set_solver.
Qed.

(** Whatever the triggers and however the awaited syncs settle, a cycle
    only ever syncs exchanges that are both configured and known to ccxt. *)
Theorem only_supported_exchanges_are_synced steps tick name :
  name ∈ sync_work tick (run EXCHANGE_NAMES supported steps) ->
  name ∈ EXCHANGE_NAMES /\ name ∈ supported.
Proof.
  unfold sync_work. intros (e & He & Hname)%list_elem_of_omap.
  destruct e as [|? ?|t n| |]; try done.
  destruct (Nat.eqb t tick); [|done]. injection Hname as ->.
  destruct (sync_work_supported_inv steps) as [_ Hev].
  apply Hev in He. apply list_elem_of_In, filter_In in He as [Hin Hsup].
  split; [by apply list_elem_of_In|].
  unfold Loader.includes_string in Hsup. apply existsb_exists in Hsup.
  destruct Hsup as (x & Hx & ->%String.eqb_eq). by apply list_elem_of_In.
Qed.

End CronGuard.

Lemma guarded_triggers_never_overlap_witness :
  let st := CronSync.run ["binance"] ["binance"]
              [CronSync.Tick; CronSync.Tick; CronSync.Settle 0 None] in
  (CronSync.cycles_in_progress st <= 1)%nat.
Proof.
  intros st.
  refine (proj1 (guarded_triggers_never_overlap ["binance"] ["binance"] st _)).
  apply (guarded_settle _ _ _ 0%nat None).
  apply guarded_tick; [|right; reflexivity].
  apply guarded_tick; [|left; reflexivity].
  apply guarded_init.
Defined.

Lemma only_supported_exchanges_are_synced_witness :
  "binance" ∈ ["binance"; "madeup"] /\ "binance" ∈ ["binance"; "kraken"].
Proof.
  apply (only_supported_exchanges_are_synced ["binance"; "madeup"]
           ["binance"; "kraken"] [CronSync.Tick] 0 "binance").
  apply list_elem_of_In. vm_compute. tauto.
Defined.
